(** * tools/generate_test262_report.py

    A shallow embedding of the Test262 report generator and the proofs of
    its specification.  The script reads a list of group names from a
    markdown document, runs the external test runner once per group,
    reads the counters of the TRX file the runner leaves behind and
    prints one summary line per group.

    Python values are modelled as follows: a [str] is the list of its
    code points, an [int] is a [Z] (unbounded; the interpreter's optional
    limit on the number of digits of a literal is not modelled), a [dict]
    is a [gmap], an exception is a constructor of [exn], and a function
    with effects is a function of the world it runs in. *)

From Stdlib Require Import ZArith NArith Lia Ascii String List Bool.
From stdpp Require Import base option list gmap.

Local Open Scope N_scope.

(** ** Strings *)

(** A code point. *)
Definition char := N.

(** A Python [str]. *)
Definition pstr := list N.

Module Utf8.
(** Source literals are written as Rocq strings, which are byte
    sequences: [decode] reads the UTF-8 encoding back into code points. *)

Definition cont (b : N) : N := N.land b 63.

Fixpoint decode (bs : list N) : pstr :=
  match bs with
  | [] => []
  | b0 :: r0 =>
      if b0 <? 128 then b0 :: decode r0
      else if b0 <? 224 then
        match r0 with
        | b1 :: r1 => (N.land b0 31 * 64 + cont b1) :: decode r1
        | _ => [b0]
        end
      else if b0 <? 240 then
        match r0 with
        | b1 :: b2 :: r2 =>
            (N.land b0 15 * 4096 + cont b1 * 64 + cont b2) :: decode r2
        | _ => [b0]
        end
      else
        match r0 with
        | b1 :: b2 :: b3 :: r3 =>
            (N.land b0 7 * 262144 + cont b1 * 4096 + cont b2 * 64 + cont b3)
              :: decode r3
        | _ => [b0]
        end
  end.

Definition of_string (s : string) : pstr :=
  decode (map N_of_ascii (list_ascii_of_string s)).
End Utf8.

Abbreviation u := Utf8.of_string.

(** The characters the script names. *)
Definition CHECK_MARK : char := 9989.  (* U+2705 *)
Definition HASH : char := 35.
Definition SLASH : char := 47.
Definition NEWLINE : char := 10.
Definition RETURN : char := 13.
Definition MINUS : char := 45.
Definition PLUS_SIGN : char := 43.
Definition UNDERSCORE : char := 95.
Definition DOT : char := 46.

(** [str.isspace] of one character, which is also what [\s] matches in a
    [str] pattern and what [str.strip()] removes. *)
Definition is_space (c : char) : bool :=
  ((9 <=? c) && (c <=? 13)) || ((28 <=? c) && (c <=? 32))
  || (c =? 133) || (c =? 160) || (c =? 5760)
  || ((8192 <=? c) && (c <=? 8202))
  || (c =? 8232) || (c =? 8233) || (c =? 8239) || (c =? 8287) || (c =? 12288).

(** The interpreter's table of decimal digits outside ASCII (the Unicode
    category Nd, which depends on the interpreter's Unicode version) is a
    parameter of the development. *)
Class UnicodeData := { nonascii_decimal : char -> option N }.

Section Digits.
Context `{UnicodeData}.

(** The value of a decimal digit, as [int] and [\d] see it. *)
Definition to_decimal (c : char) : option N :=
  if c <? 128 then
    if (48 <=? c) && (c <=? 57) then Some (c - 48) else None
  else nonascii_decimal c.

(** [\d] *)
Definition is_digit (c : char) : bool :=
  match to_decimal c with Some _ => true | None => false end.
End Digits.

(** [[A-Za-z0-9_.-]] *)
Definition is_ident (c : char) : bool :=
  ((65 <=? c) && (c <=? 90)) || ((97 <=? c) && (c <=? 122))
  || ((48 <=? c) && (c <=? 57))
  || (c =? UNDERSCORE) || (c =? DOT) || (c =? MINUS).

(** [str.strip()] *)
Fixpoint lstrip (s : pstr) : pstr :=
  match s with
  | c :: r => if is_space c then lstrip r else s
  | [] => []
  end.

Definition rstrip (s : pstr) : pstr := rev (lstrip (rev s)).

Definition strip (s : pstr) : pstr := rstrip (lstrip s).

(** [str.startswith] for a one-character prefix. *)
Definition startswith (s : pstr) (c : char) : bool :=
  match s with
  | c0 :: _ => c0 =? c
  | [] => false
  end.

(** ** Integers and their text *)

(** The decimal digits of a natural number, most significant first. *)
Fixpoint digits_of (fuel : nat) (n : N) : pstr :=
  match fuel with
  | O => []
  | S fuel' =>
      if n <? 10 then [48 + n]
      else digits_of fuel' (n / 10) ++ [48 + n mod 10]
  end.

Definition str_N (n : N) : pstr := digits_of (S (N.to_nat (N.log2 n))) n.

(** [str(i)], which is also how an f-string renders an [int]. *)
Definition str_Z (i : Z) : pstr :=
  match i with
  | Zneg p => MINUS :: str_N (Npos p)
  | _ => str_N (Z.to_N i)
  end.

Section Int.
Context `{UnicodeData}.

(** The digits of an [int] literal: one or more decimal digits,
    single underscores allowed between two digits. *)
Fixpoint int_digits (after_digit : bool) (acc : N) (s : pstr) : option N :=
  match s with
  | [] => if after_digit then Some acc else None
  | c :: r =>
      match to_decimal c with
      | Some d => int_digits true (10 * acc + d) r
      | None =>
          if (c =? UNDERSCORE) && after_digit then int_digits false acc r
          else None
      end
  end.

(** [int(s)] for a [str]: [None] stands for [ValueError]. *)
Definition py_int (s : pstr) : option Z :=
  match strip s with
  | c :: r =>
      if c =? MINUS then Z.opp <$> (Z.of_N <$> int_digits false 0 r)
      else if c =? PLUS_SIGN then Z.of_N <$> int_digits false 0 r
      else Z.of_N <$> int_digits false 0 (c :: r)
  | [] => None
  end.
End Int.

(** ** Regular expressions

    The fragment of [re] that [GROUP_LINE] is written in, matched the way
    [re] does it: leftmost alternative first, repetitions greedy, and
    backtracking into them when the rest of the pattern fails. *)

Inductive regex : Type :=
| Bol                           (* ^ *)
| Eol                           (* $ *)
| Lit (c : char)                (* a literal character *)
| Star (p : char -> bool)       (* x* for a one-character x *)
| Plus (p : char -> bool)       (* x+ for a one-character x *)
| Cat (r1 r2 : regex)
| Opt (r : regex)               (* r? *)
| Group (r : regex).            (* ( r ), the pattern's group 1 *)

(** The matcher's state: how many characters are behind it, what is
    ahead, and what group 1 holds. *)
Record mstate : Type := MState {
  pos : nat;
  rest : pstr;
  group1 : option pstr
}.

Definition moved (st : mstate) (n : nat) (s : pstr) : mstate :=
  {| pos := pos st + n; rest := s; group1 := group1 st |}.

Section Matcher.
Context {R : Type}.

Fixpoint star_k (p : char -> bool) (k : nat -> pstr -> option R)
    (n : nat) (s : pstr) : option R :=
  match s with
  | c :: s' =>
      if p c then
        match star_k p k (S n) s' with
        | Some x => Some x
        | None => k n s
        end
      else k n s
  | [] => k n []
  end.

Fixpoint run (r : regex) (st : mstate) (k : mstate -> option R) : option R :=
  match r with
  | Bol => if Nat.eqb (pos st) 0 then k st else None
  | Eol =>
      match rest st with
      | [] => k st
      | [c] => if c =? NEWLINE then k st else None
      | _ => None
      end
  | Lit c =>
      match rest st with
      | c0 :: s' => if c0 =? c then k (moved st 1 s') else None
      | [] => None
      end
  | Star p => star_k p (fun n s => k (moved st n s)) 0%nat (rest st)
  | Plus p =>
      match rest st with
      | c0 :: s' =>
          if p c0 then star_k p (fun n s => k (moved st n s)) 1%nat s'
          else None
      | [] => None
      end
  | Cat r1 r2 => run r1 st (fun st' => run r2 st' k)
  | Opt r1 =>
      match run r1 st k with
      | Some x => Some x
      | None => k st
      end
  | Group r1 =>
      run r1 st (fun st' =>
        k {| pos := pos st'; rest := rest st';
             group1 := Some (take (pos st' - pos st) (rest st)) |})
  end.
End Matcher.

(** [pattern.match(s)]: [None] when there is no match, and otherwise
    what [m.group(1)] is ([None] for a group that took no part). *)
Definition re_match (r : regex) (s : pstr) : option (option pstr) :=
  run r {| pos := 0; rest := s; group1 := None |} (fun st => Some (group1 st)).

Section GroupLine.
Context `{UnicodeData}.

(** [GROUP_LINE], the compiled pattern of the script: anchored at both
    ends; an optional check mark with any whitespace after it; an
    optional ratio, digits, a slash, digits and at least one whitespace
    character; and the group name, which is the pattern's only group. *)
Definition GROUP_LINE : regex :=
  Cat Bol
    (Cat (Opt (Cat (Lit CHECK_MARK) (Star is_space)))
      (Cat (Opt (Cat (Plus is_digit)
                  (Cat (Lit SLASH) (Cat (Plus is_digit) (Plus is_space)))))
        (Cat (Group (Plus is_ident)) Eol))).
End GroupLine.

(** ** What a pattern accepts

    [steps r st st'] says that [r] can take the matcher from [st] to
    [st']; the backtracking matcher finds a match exactly when there is
    one. *)

Definition all (p : char -> bool) (s : pstr) : Prop :=
  Forall (fun c => p c = true) s.

Inductive steps : regex -> mstate -> mstate -> Prop :=
| steps_bol st : pos st = 0%nat -> steps Bol st st
| steps_eol st : rest st = [] \/ rest st = [NEWLINE] -> steps Eol st st
| steps_lit c st s' : rest st = c :: s' -> steps (Lit c) st (moved st 1 s')
| steps_star p st xs s' :
    rest st = xs ++ s' -> all p xs ->
    steps (Star p) st (moved st (length xs) s')
| steps_plus p st xs s' :
    rest st = xs ++ s' -> all p xs -> xs <> [] ->
    steps (Plus p) st (moved st (length xs) s')
| steps_cat r1 r2 st st1 st2 :
    steps r1 st st1 -> steps r2 st1 st2 -> steps (Cat r1 r2) st st2
| steps_opt_some r st st' : steps r st st' -> steps (Opt r) st st'
| steps_opt_none r st : steps (Opt r) st st
| steps_group r st st' :
    steps r st st' ->
    steps (Group r) st
      {| pos := pos st'; rest := rest st';
         group1 := Some (take (pos st' - pos st) (rest st)) |}.

(** For a pattern without anchors and groups, what it accepts is a set of
    strings. *)
Fixpoint plain (r : regex) : bool :=
  match r with
  | Bol | Eol | Group _ => false
  | Lit _ | Star _ | Plus _ => true
  | Cat r1 r2 => plain r1 && plain r2
  | Opt r1 => plain r1
  end.

Fixpoint lang (r : regex) (xs : pstr) : Prop :=
  match r with
  | Lit c => xs = [c]
  | Star p => all p xs
  | Plus p => all p xs /\ xs <> []
  | Cat r1 r2 => exists x1 x2, xs = x1 ++ x2 /\ lang r1 x1 /\ lang r2 x2
  | Opt r1 => xs = [] \/ lang r1 xs
  | Bol | Eol | Group _ => False
  end.

(** ** The lines [GROUP_LINE] accepts *)

Section Shapes.
Context `{UnicodeData}.

(** A group name: one or more of [A-Za-z0-9_.-]. *)
Definition is_name (g : pstr) : Prop := g <> [] /\ all is_ident g.

(** The optional decoration: nothing, or a check mark and any
    whitespace, none included. *)
Definition is_mark (d : pstr) : Prop :=
  d = [] \/ exists ws, d = CHECK_MARK :: ws /\ all is_space ws.

(** The optional ratio: nothing, or digits, a slash, digits, and at
    least one whitespace character. *)
Definition is_ratio (r : pstr) : Prop :=
  r = [] \/
  exists a b ws, r = a ++ SLASH :: b ++ ws
    /\ a <> [] /\ all is_digit a /\ b <> [] /\ all is_digit b
    /\ ws <> [] /\ all is_space ws.

(** A line of the group list as the pattern reads it. *)
Definition group_line (s g : pstr) : Prop :=
  exists d r, s = d ++ r ++ g /\ is_mark d /\ is_ratio r /\ is_name g.

Definition MARK : regex := Opt (Cat (Lit CHECK_MARK) (Star is_space)).
Definition RATIO : regex :=
  Opt (Cat (Plus is_digit) (Cat (Lit SLASH) (Cat (Plus is_digit) (Plus is_space)))).
Definition NAME : regex := Plus is_ident.

(** The line shapes the specification lists, after trimming: a bare
    identifier, a check mark and an identifier, a ratio and an
    identifier, or all three, with whitespace between the parts. *)
Definition spec_mark (d : pstr) : Prop :=
  d = [] \/ exists ws, d = CHECK_MARK :: ws /\ ws <> [] /\ all is_space ws.

Definition recognized_shape (s g : pstr) : Prop :=
  exists d r, s = d ++ r ++ g /\ spec_mark d /\ is_ratio r /\ is_name g.

(** A line [GROUP_LINE] matches: the three parts, and possibly one
    newline after them (which [$] lets pass). *)
Definition accepted (s g : pstr) : Prop :=
  group_line s g \/ exists s0, s = s0 ++ [NEWLINE] /\ group_line s0 g.

End Shapes.

(** The longest run of [p] at the head of a string. *)
Fixpoint take_while (p : char -> bool) (s : pstr) : pstr :=
  match s with
  | c :: r => if p c then c :: take_while p r else []
  | [] => []
  end.

(** The name at the end of a line, one trailing newline apart. *)
Definition chomp (s : pstr) : pstr :=
  match s with
  | c :: r => if c =? NEWLINE then r else s
  | [] => []
  end.

Definition name_of (s : pstr) : pstr :=
  rev (take_while is_ident (chomp (rev s))).

(** ** Reading a text file line by line *)

(** Text mode with universal newlines: "\r\n" and a lone "\r" are read
    as "\n". *)
Fixpoint universal_newlines (s : pstr) : pstr :=
  match s with
  | [] => []
  | c :: r =>
      if c =? RETURN then
        match r with
        | c' :: r' =>
            if c' =? NEWLINE then NEWLINE :: universal_newlines r'
            else NEWLINE :: universal_newlines r
        | [] => [NEWLINE]
        end
      else c :: universal_newlines r
  end.

(** [for line in fh]: the lines of the text, each with its newline; the
    last one has none when the text does not end in a newline. *)
Fixpoint readlines (cur : pstr) (s : pstr) : list pstr :=
  match s with
  | [] => match cur with [] => [] | _ => [cur] end
  | c :: r =>
      if c =? NEWLINE then (cur ++ [c]) :: readlines [] r
      else readlines (cur ++ [c]) r
  end.

Section ParseGroups.
Context `{UnicodeData}.

(** One turn of the loop of [parse_groups]. *)
Definition parse_line (groups : list pstr) (line : pstr) : list pstr :=
  let line := strip line in
  if bool_decide (line = []) || startswith line HASH then groups
  else
    match re_match GROUP_LINE line with
    | Some m =>
        match m with
        | Some g => groups ++ [g]
        | None => groups   (* no match of GROUP_LINE is without group 1 *)
        end
    | None => groups
    end.

(** [parse_groups] on the text of the document. *)
Definition parse_text (text : pstr) : list pstr :=
  fold_left parse_line (readlines [] (universal_newlines text)) [].
End ParseGroups.

(** ** The world the script runs in *)

Inductive exn : Type :=
| CalledProcessError (returncode : Z)
| OSError            (* FileNotFoundError, PermissionError, ... *)
| ParseError         (* xml.etree.ElementTree.ParseError *)
| ValueError.        (* UnicodeDecodeError included *)

Inductive result (A : Type) : Type :=
| Ok (a : A)
| Raise (e : exn).
Arguments Ok {A} a.
Arguments Raise {A} e.

(** An element of a parsed XML document, as [xml.etree.ElementTree]
    holds it: the tag with its namespace in braces, the attributes, and
    the child elements in document order. *)
#[local] Unset Elimination Schemes.
Inductive Element : Type :=
| Elem (tag : pstr) (attrib : gmap pstr pstr) (children : list Element).
#[local] Set Elimination Schemes.

Definition tag (e : Element) : pstr := let 'Elem t _ _ := e in t.
Definition attrib (e : Element) : gmap pstr pstr := let 'Elem _ a _ := e in a.
Definition children (e : Element) : list Element := let 'Elem _ _ c := e in c.

(** How a started process ended, or why it did not start. *)
Inductive process : Type :=
| Exited (returncode : Z)
| NotStarted.   (* the program is missing or may not be run: an OSError *)

(** The operating system, the file system and the external test runner,
    as far as the script touches them.  [S] is their state. *)
Class System (St : Type) : Type := {
  (** [os.path.dirname(os.path.dirname(os.path.abspath(__file__)))] *)
  script_root : pstr;
  (** [os.makedirs(path, exist_ok=True)] *)
  os_makedirs : pstr -> St -> result unit * St;
  (** Running a command in a working directory, its output discarded. *)
  spawn : list pstr -> pstr -> St -> process * St;
  (** [os.path.exists(path)] *)
  os_path_exists : pstr -> St -> bool;
  (** [ET.parse(path).getroot()] *)
  ET_parse : pstr -> St -> result Element;
  (** The decoded text of a file opened for reading. *)
  open_text : pstr -> St -> result pstr
}.

Record world (St : Type) : Type := World {
  sys : St;
  stdout : list pstr;   (* the lines printed so far *)
  stderr : list pstr
}.
Arguments World {St} sys stdout stderr.
Arguments sys {St} w.
Arguments stdout {St} w.
Arguments stderr {St} w.

(** A computation that may change the world and may raise. *)
Definition M (St A : Type) : Type := world St -> result A * world St.

Definition ret {St A} (a : A) : M St A := fun w => (Ok a, w).

Definition bind {St A B} (m : M St A) (f : A -> M St B) : M St B :=
  fun w =>
    match m w with
    | (Ok a, w') => f a w'
    | (Raise e, w') => (Raise e, w')
    end.

Notation "'let*' x := m 'in' k" := (bind m (fun x => k))
  (at level 10, x name, m at level 100, k at level 200, only parsing).
Notation "'let*' ' pat := m 'in' k" :=
  (bind m (fun x => match x with pat => k end))
  (at level 10, pat pattern, m at level 100, k at level 200, only parsing).
Notation "'do' m 'then' k" := (bind m (fun _ => k))
  (at level 10, m at level 100, k at level 200, only parsing).

(** [try: m except E: handler], [catches] telling the exceptions of
    class [E]. *)
Definition try_except {St A} (m : M St A) (catches : exn -> bool)
    (handler : M St A) : M St A :=
  fun w =>
    match m w with
    | (Raise e, w') => if catches e then handler w' else (Raise e, w')
    | r => r
    end.

Definition raise_ {St A} (e : exn) : M St A := fun w => (Raise e, w).

Definition print {St} (line : pstr) : M St unit :=
  fun w => (Ok tt, World (sys w) (stdout w ++ [line]) (stderr w)).

Definition print_stderr {St} (line : pstr) : M St unit :=
  fun w => (Ok tt, World (sys w) (stdout w) (stderr w ++ [line])).

(** An operation of the system that may change its state. *)
Definition act {St A} (op : St -> result A * St) : M St A :=
  fun w =>
    let '(r, s') := op (sys w) in (r, World s' (stdout w) (stderr w)).

(** An operation of the system that only looks. *)
Definition ask {St A} (op : St -> A) : M St A := fun w => (Ok (op (sys w)), w).

Definition ask_result {St A} (op : St -> result A) : M St A :=
  fun w => (op (sys w), w).

Definition is_CalledProcessError (e : exn) : bool :=
  match e with CalledProcessError _ => true | _ => false end.

Definition is_ParseError (e : exn) : bool :=
  match e with ParseError => true | _ => false end.

(** [os.path.join] *)
Definition path_join2 (path b : pstr) : pstr :=
  if startswith b SLASH then b
  else if bool_decide (path = []) || bool_decide (last path = Some SLASH)
       then path ++ b
       else path ++ SLASH :: b.

Definition path_join (a : pstr) (p : list pstr) : pstr := fold_left path_join2 p a.

(** ** ElementTree's [find] *)

(** [elem.iter()]: the element and all below it, in document order. *)
Fixpoint iter (e : Element) : list Element :=
  match e with
  | Elem _ _ cs =>
      e :: (fix iter_all (l : list Element) : list Element :=
              match l with
              | [] => []
              | c :: l' => iter c ++ iter_all l'
              end) cs
  end.

Definition has_tag (t : pstr) (e : Element) : bool := bool_decide (tag e = t).

(** [elem.findall(".//a/b")] for two qualified tags: the children tagged
    [b] of the elements tagged [a] strictly below [elem]. *)
Definition findall_below (a b : pstr) (elem : Element) : list Element :=
  flat_map (fun e => filter (fun c => has_tag b c = true) (children e))
    (filter (fun e => has_tag a e = true) (flat_map iter (children elem))).

(** [elem.find(".//a/b")]: the first of them, or [None]. *)
Definition find_below (a b : pstr) (elem : Element) : option Element :=
  head (findall_below a b elem).

Definition TRX_NS : pstr :=
  u "http://microsoft.com/schemas/VisualStudio/TeamTest/2010".

(** The tag of [t:local] under [ns = {"t": TRX_NS}]. *)
Definition qname (local : pstr) : pstr := u "{" ++ TRX_NS ++ u "}" ++ local.

(** [root.find(".//t:ResultSummary/t:Counters", ns)] *)
Definition find_counters (root : Element) : option Element :=
  find_below (qname (u "ResultSummary")) (qname (u "Counters")) root.

(** [elem.attrib.get(name, default)] *)
Definition attrib_get (elem : Element) (name default : pstr) : pstr :=
  match attrib elem !! name with
  | Some v => v
  | None => default
  end.

(** ** The script *)

Section Script.
Context {St : Type} `{System St} `{UnicodeData}.

Definition ROOT : pstr := script_root.

Definition TEST_PROJ : pstr :=
  path_join ROOT
    [u "tests"; u "Asynkron.JsEngine.Tests.Test262";
     u "Asynkron.JsEngine.Tests.Test262.csproj"].

(** [parse_groups(path)] *)
Definition parse_groups (path : pstr) : M St (list pstr) :=
  let* text := ask_result (open_text path) in
  ret (parse_text text).

(** [subprocess.run(cmd, check=True, cwd=cwd, stdout=DEVNULL,
    stderr=STDOUT)]: a return code other than 0 raises
    [CalledProcessError]; a command that cannot be started raises
    [FileNotFoundError] or another [OSError]. *)
Definition subprocess_run_check (cmd : list pstr) (cwd : pstr) : M St unit :=
  fun w =>
    let '(p, s') := spawn cmd cwd (sys w) in
    let w' := World s' (stdout w) (stderr w) in
    match p with
    | Exited rc => if (rc =? 0)%Z then (Ok tt, w') else (Raise (CalledProcessError rc), w')
    | NotStarted => (Raise OSError, w')
    end.

(** [int(summary.attrib.get(name, "0"))] *)
Definition int_attrib (summary : Element) (name : pstr) : M St Z :=
  match py_int (attrib_get summary name (u "0")) with
  | Some i => ret i
  | None => raise_ ValueError
  end.

(** The command line of the test runner for one group. *)
Definition runner_cmd (group results_dir : pstr) : list pstr :=
  let trx_name := group ++ u ".trx" in
  [u "dotnet"; u "test"; TEST_PROJ; u "--filter";
   u "FullyQualifiedName=Asynkron.JsEngine.Tests.Test262.BuiltInsTests." ++ group;
   u "--logger"; u "trx;LogFileName=" ++ trx_name;
   u "--results-directory"; results_dir].

(** The [try] statement around the runner: only [CalledProcessError]
    is caught. *)
Definition invoke_runner (group results_dir : pstr) : M St unit :=
  try_except (subprocess_run_check (runner_cmd group results_dir) ROOT)
    is_CalledProcessError (ret tt).

(** The counters read from the TRX file: the values of [passed],
    [failed] and [skipped] when the [if os.path.exists] statement is
    left.  [ParseError] can only come from [ET.parse], before any of
    the three is assigned, so the handler leaves them all 0. *)
Definition read_counters (trx_path : pstr) : M St (Z * Z * Z) :=
  let* there := ask (os_path_exists trx_path) in
  if there : bool then
    try_except
      (let* root := ask_result (ET_parse trx_path) in
       match find_counters root with
       | Some summary =>
           let* passed := int_attrib summary (u "passed") in
           let* failed := int_attrib summary (u "failed") in
           let* skipped := int_attrib summary (u "notExecuted") in
           ret (passed, failed, skipped)
       | None => ret (0, 0, 0)%Z
       end)
      is_ParseError (ret (0, 0, 0)%Z)
  else ret (0, 0, 0)%Z.

(** The end of [run_group], from [passed = failed = skipped = 0] to the
    [return]: what the TRX file at [trx_path] says about [group]. *)
Definition read_result (group trx_path : pstr) : M St (pstr * Z * Z * Z) :=
  let* '(passed, failed, skipped) := read_counters trx_path in
  let total := (passed + failed + skipped)%Z in
  ret (group, passed, failed, total).

(** [run_group(group, results_dir)] *)
Definition run_group (group results_dir : pstr) : M St (pstr * Z * Z * Z) :=
  do act (os_makedirs results_dir) then
  let trx_name := group ++ u ".trx" in
  let trx_path := path_join results_dir [trx_name] in
  do invoke_runner group results_dir then
  read_result group trx_path.

(** The line [main] prints for one result of [run_group]. *)
Definition summary_line (name : pstr) (passed failed total : Z) : pstr :=
  if (failed =? 0)%Z && (0 <? passed)%Z && (passed =? total)%Z
  then CHECK_MARK :: u " " ++ name
  else str_Z passed ++ u "/" ++ str_Z total ++ u " " ++ name.

Definition progress_line (idx total_groups : nat) (group : pstr) : pstr :=
  u "[" ++ str_Z (Z.of_nat idx) ++ u "/" ++ str_Z (Z.of_nat total_groups)
    ++ u "] Running " ++ group ++ u "...".

(** The [for] loop of [main], from the group numbered [idx] on;
    [summaries] is the list the loop appends to. *)
Fixpoint run_groups (results_dir : pstr) (total_groups idx : nat)
    (groups : list pstr) (summaries : list pstr) : M St (list pstr) :=
  match groups with
  | [] => ret summaries
  | group :: groups' =>
      do print_stderr (progress_line idx total_groups group) then
      let* '(name, passed, failed, total) := run_group group results_dir in
      let summary := summary_line name passed failed total in
      do print summary then
      run_groups results_dir total_groups (S idx) groups' (summaries ++ [summary])
  end.

(** The two options of the command line. *)
Record args : Type := Args { groups_path : pstr; results_dir_path : pstr }.

Definition default_args : args :=
  {| groups_path := path_join ROOT [u "262tests.md"];
     results_dir_path := u "/tmp/jsengine-results" |}.

(** [main()], after the command line has been parsed. *)
Definition main (a : args) : M St Z :=
  let* groups := parse_groups (groups_path a) in
  match groups with
  | [] =>
      do print_stderr (u "No groups found to run.") then
      ret 1%Z
  | _ =>
      let* summaries := run_groups (results_dir_path a) (length groups) 1 groups [] in
      ret 0%Z
  end.

End Script.

(** ** Conditions on a result file *)

(** A line of the report for the group [g]. *)
Definition report_line (g line : pstr) : Prop :=
  line = CHECK_MARK :: u " " ++ g
  \/ exists passed total : Z, line = str_Z passed ++ u "/" ++ str_Z total ++ u " " ++ g.

(** A group name as the specification wants it: not empty, made of
    [A-Za-z0-9_.-], and so without whitespace, check mark or slash. *)
Definition clean_name (g : pstr) : Prop :=
  g <> []
  /\ Forall (fun c => is_ident c = true) g
  /\ Forall (fun c => is_space c = false /\ c <> CHECK_MARK /\ c <> SLASH) g.

(** The three attributes [run_group] reads. *)
Definition counter_names : list pstr := [u "passed"; u "failed"; u "notExecuted"].

Section Conditions.
Context {St : Type} `{System St} `{UnicodeData}.

(** There is nothing to count: no file, a file that is not well-formed
    XML, or a document without a counters node. *)
Definition no_counters (trx_path : pstr) (s : St) : Prop :=
  os_path_exists trx_path s = false
  \/ (os_path_exists trx_path s = true /\ ET_parse trx_path s = Raise ParseError)
  \/ (os_path_exists trx_path s = true /\
      exists root, ET_parse trx_path s = Ok root /\ find_counters root = None).

(** The file has a counters node, [summary]. *)
Definition has_counters (trx_path : pstr) (s : St) (summary : Element) : Prop :=
  os_path_exists trx_path s = true /\
  exists root, ET_parse trx_path s = Ok root /\ find_counters root = Some summary.

(** Each of the three attributes is missing or an [int] literal. *)
Definition integer_counters (summary : Element) : Prop :=
  Forall (fun name => is_Some (py_int (attrib_get summary name (u "0")))) counter_names.

(** None of the three attributes starts with a minus sign. *)
Definition unsigned_counters (summary : Element) : Prop :=
  Forall (fun name => startswith (strip (attrib_get summary name (u "0"))) MINUS = false)
    counter_names.
End Conditions.

(** ** A system to run the script in

    A file system in memory, for running the script on examples: a path
    holds a directory or a file, and a file has its text and, when that
    text is well-formed XML, the tree [ET.parse] makes of it.  The test
    runner is a function of the command line and the files. *)
Module Sim.
Inductive node : Type :=
| Dir
| File (text : pstr) (xml : option Element).

Definition files : Type := gmap pstr node.

Definition makedirs (path : pstr) (fs : files) : result unit * files :=
  match fs !! path with
  | Some Dir => (Ok tt, fs)
  | Some (File _ _) => (Raise OSError, fs)
  | None => (Ok tt, <[path := Dir]> fs)
  end.

Definition parse (path : pstr) (fs : files) : result Element :=
  match fs !! path with
  | Some (File _ (Some root)) => Ok root
  | Some (File _ None) => Raise ParseError
  | Some Dir | None => Raise OSError
  end.

Definition read (path : pstr) (fs : files) : result pstr :=
  match fs !! path with
  | Some (File text _) => Ok text
  | Some Dir | None => Raise OSError
  end.

Definition system (root : pstr) (runner : list pstr -> files -> process * files)
    : System files :=
  {| script_root := root;
     os_makedirs := makedirs;
     spawn := fun cmd _ fs => runner cmd fs;
     os_path_exists := fun path fs => bool_decide (is_Some (fs !! path));
     ET_parse := parse;
     open_text := read |}.

(** Runners: one that passes and writes nothing, one that fails and
    writes nothing, and one that is not installed. *)
Definition quiet (rc : Z) : list pstr -> files -> process * files :=
  fun _ fs => (Exited rc, fs).
Definition missing : list pstr -> files -> process * files :=
  fun _ fs => (NotStarted, fs).

(** A TRX document whose counters node has the given attributes. *)
Definition trx (counters : list (pstr * pstr)) : Element :=
  Elem (qname (u "TestRun")) ∅
    [Elem (qname (u "Results")) ∅ [];
     Elem (qname (u "ResultSummary")) {[ u "outcome" := u "Completed" ]}
       [Elem (qname (u "Counters")) (list_to_map counters) []]].

Definition trx_file (counters : list (pstr * pstr)) : node :=
  File (u "<TestRun/>") (Some (trx counters)).

Definition start (fs : files) : world files := World fs [] [].
End Sim.

(** The Unicode table with no decimal digits outside ASCII. *)
Definition ascii_digits : UnicodeData := {| nonascii_decimal := fun _ => None |}.


(** Worlds for the examples. *)
Module Fixtures.
Import Sim.

Definition sys0 : System files := system (u "/repo") (quiet 0).
Definition sys_failing : System files := system (u "/repo") (quiet 1).
Definition sys_missing : System files := system (u "/repo") missing.

Definition doc : pstr :=
  map (fun c => if c =? 124 then NEWLINE else c)
    (u "# Test262 groups||✅ Array.prototype.map|12/15 RegExp|Promise|not a group line|").

Definition results : pstr := u "/tmp/jsengine-results".

Definition fs0 : files :=
  {[ u "/repo/262tests.md" := File doc None;
     results := Dir;
     u "/tmp/jsengine-results/Array.prototype.map.trx" :=
       trx_file [(u "passed", u "10"); (u "failed", u "0"); (u "notExecuted", u "0")];
     u "/tmp/jsengine-results/RegExp.trx" :=
       trx_file [(u "passed", u "8"); (u "failed", u "2"); (u "total", u "10")] ]}.

(** A document with one group, and result files with counters that are
    not a number, or a negative one. *)
Definition fs1 : files :=
  {[ u "/repo/262tests.md" := File (u "Promise") None;
     results := Dir;
     u "/tmp/jsengine-results/Promise.trx" := trx_file [(u "passed", u "abc")];
     u "/tmp/jsengine-results/Proxy.trx" := trx_file [(u "passed", u "-1")];
     u "/tmp/jsengine-results/Symbol.trx" := File (u "<TestRun>") None ]}.
End Fixtures.

(** ** Texts, traces and trees the further properties speak of *)

(** What [print] has written for a list of lines: each line and its
    newline. *)
Definition report_text (lines : list pstr) : pstr :=
  flat_map (fun line => line ++ [NEWLINE]) lines.

(** A text with its newlines written the Windows way, and the old
    Macintosh way. *)
Definition crlf (s : pstr) : pstr :=
  flat_map (fun c => if c =? NEWLINE then [RETURN; NEWLINE] else [c]) s.

Definition cr_only (s : pstr) : pstr :=
  map (fun c => if c =? NEWLINE then RETURN else c) s.

(** The progress lines of the groups numbered from [first] on. *)
Definition progress_lines (first total_groups : nat) (groups : list pstr)
    : list pstr :=
  imap (fun i group => progress_line (first + i) total_groups group) groups.

(** The elements strictly below an element, in document order. *)
Definition below (elem : Element) : list Element :=
  flat_map iter (children elem).

(** The separator [os.path.join] puts after a directory. *)
Definition join_sep (dir : pstr) : pstr :=
  if bool_decide (dir = []) || bool_decide (last dir = Some SLASH) then []
  else [SLASH].

(** A document of three groups; the result file of the second one has a
    counter that is no number. *)
Definition fs2 : Sim.files :=
  {[ u "/repo/262tests.md" :=
       Sim.File (map (fun c => if c =? 124 then NEWLINE else c)
                   (u "RegExp|Promise|Symbol|")) None;
     Fixtures.results := Sim.Dir;
     u "/tmp/jsengine-results/RegExp.trx" :=
       Sim.trx_file [(u "passed", u "8"); (u "failed", u "2")];
     u "/tmp/jsengine-results/Promise.trx" := Sim.trx_file [(u "passed", u "abc")];
     u "/tmp/jsengine-results/Symbol.trx" :=
       Sim.trx_file [(u "passed", u "5"); (u "notExecuted", u "1")] ]}.

(** Appends, all to the right. *)
Ltac flatten_app := repeat (progress (simpl; rewrite <- ?app_assoc)).
Lemma moved_0 st : moved st 0 (rest st) = st.
Proof. destruct st; unfold moved; simpl. f_equal. lia. Qed.

Section MatcherFacts.
Context {R : Type}.
Implicit Types (k : mstate -> option R) (p : char -> bool).

Lemma star_k_sound p (kk : nat -> pstr -> option R) s : forall n x,
  star_k p kk n s = Some x ->
  exists xs s', s = xs ++ s' /\ all p xs /\ kk (n + length xs)%nat s' = Some x.
Proof.
  induction s as [|c s IH]; intros n x Hx; simpl in Hx.
  - exists [], []. rewrite Nat.add_0_r. repeat split; [constructor | done].
  - destruct (p c) eqn:Hc.
    + destruct (star_k p kk (S n) s) as [y|] eqn:Hy.
      * injection Hx as ->. destruct (IH _ _ Hy) as (xs & s' & -> & Hall & Hk).
        exists (c :: xs), s'. simpl. repeat split.
        -- constructor; assumption.
        -- rewrite <- Hk. f_equal. lia.
      * exists [], (c :: s). rewrite Nat.add_0_r.
        repeat split; [constructor | done].
    + exists [], (c :: s). rewrite Nat.add_0_r.
      repeat split; [constructor | done].
Qed.

Lemma star_k_complete p (kk : nat -> pstr -> option R) xs : forall s' n x,
  all p xs -> kk (n + length xs)%nat s' = Some x ->
  is_Some (star_k p kk n (xs ++ s')).
Proof.
  induction xs as [|c xs IH]; intros s' n x Hall Hk; simpl in *.
  - rewrite Nat.add_0_r in Hk. destruct s' as [|c s']; simpl.
    + eauto.
    + destruct (p c); [destruct (star_k p kk (S n) s')|]; eauto.
  - inversion Hall as [|? ? Hc Hall']; subst. rewrite Hc.
    destruct (IH s' (S n) x Hall') as [y Hy].
    + rewrite <- Hk. f_equal. lia.
    + rewrite Hy. eauto.
Qed.

Lemma run_sound r : forall st k x,
  run r st k = Some x -> exists st', steps r st st' /\ k st' = Some x.
Proof.
  induction r as [| |c|p|p|r1 IH1 r2 IH2|r1 IH1|r1 IH1]; intros st k x Hx;
    simpl in Hx.
  - destruct (Nat.eqb_spec (pos st) 0); [|done].
    exists st. split; [by constructor | done].
  - destruct (rest st) as [|c [|c' s]] eqn:Hs; try done.
    + exists st. split; [constructor; auto | done].
    + destruct (N.eqb_spec c NEWLINE); [subst c|done].
      exists st. split; [constructor; auto | done].
  - destruct (rest st) as [|c0 s'] eqn:Hs; [done|].
    destruct (N.eqb_spec c0 c); [subst c0|done].
    exists (moved st 1 s'). split; [by constructor | done].
  - apply star_k_sound in Hx as (xs & s' & Hs & Hall & Hk).
    exists (moved st (length xs) s'). split; [by constructor | done].
  - destruct (rest st) as [|c0 s0] eqn:Hs; [done|].
    destruct (p c0) eqn:Hc; [|done].
    apply star_k_sound in Hx as (xs & s' & -> & Hall & Hk).
    exists (moved st (length (c0 :: xs)) s'). split; [|done].
    apply steps_plus; [done | by constructor | done].
  - apply IH1 in Hx as (st1 & H1 & Hx). apply IH2 in Hx as (st2 & H2 & Hx).
    exists st2. split; [by econstructor | done].
  - destruct (run r1 st k) as [y|] eqn:Hy.
    + injection Hx as ->. apply IH1 in Hy as (st' & H1 & Hk).
      exists st'. split; [by apply steps_opt_some | done].
    + exists st. split; [apply steps_opt_none | done].
  - apply IH1 in Hx as (st' & H1 & Hk). eexists. split; [by constructor | done].
Qed.

Lemma run_complete r st st' :
  steps r st st' -> forall k x, k st' = Some x -> is_Some (run r st k).
Proof.
  induction 1 as [st Hp|st He|c st s' Hs|p st xs s' Hs Hall|p st xs s' Hs Hall Hne
                 |r1 r2 st st1 st2 _ IH1 _ IH2|r st st' _ IH|r st|r st st' _ IH];
    intros k x Hk; simpl.
  - rewrite Hp. simpl. eauto.
  - destruct He as [-> | ->]; simpl; eauto.
  - rewrite Hs, N.eqb_refl. eauto.
  - rewrite Hs. by eapply star_k_complete.
  - destruct xs as [|c xs]; [done|]. rewrite Hs. simpl.
    inversion Hall as [|? ? Hc Hall']; subst. rewrite Hc.
    eapply star_k_complete; [done|]. rewrite <- Hk. unfold moved. simpl.
    do 2 f_equal.
  - destruct (IH2 _ _ Hk) as [y Hy]. by eapply IH1.
  - destruct (IH _ _ Hk) as [y ->]. eauto.
  - destruct (run r st k); eauto.
  - by eapply IH.
Qed.
End MatcherFacts.

(** Whatever a pattern does, it only walks forward over the text. *)
Lemma steps_forward r st st' :
  steps r st st' ->
  exists xs, rest st = xs ++ rest st' /\ pos st' = (pos st + length xs)%nat.
Proof.
  induction 1 as [st Hp|st He|c st s' Hs|p st xs s' Hs Hall|p st xs s' Hs Hall Hne
                 |r1 r2 st st1 st2 _ IH1 _ IH2|r st st' _ IH|r st|r st st' _ IH].
  - exists []. simpl. split; [done | lia].
  - exists []. simpl. split; [done | lia].
  - exists [c]. simpl. split; [done | lia].
  - exists xs. simpl. split; [done | lia].
  - exists xs. simpl. split; [done | lia].
  - destruct IH1 as (xs & Hx & Hp1), IH2 as (ys & Hy & Hp2).
    exists (xs ++ ys). rewrite length_app, <- app_assoc, <- Hy. split; [done | lia].
  - done.
  - exists []. simpl. split; [done | lia].
  - done.
Qed.

Lemma moved_moved st n1 s1 n2 s2 :
  moved (moved st n1 s1) n2 s2 = moved st (n1 + n2) s2.
Proof. unfold moved; simpl. f_equal. lia. Qed.

Lemma steps_plain r : plain r = true -> forall st st',
  steps r st st' <->
  exists xs, lang r xs /\ rest st = xs ++ rest st'
             /\ st' = moved st (length xs) (rest st').
Proof.
  induction r as [| |c|p|p|r1 IH1 r2 IH2|r1 IH1|r1 IH1]; simpl; intros Hp st st';
    try discriminate.
  - split.
    + inversion 1; subst. exists [c]. by simpl.
    + intros (xs & -> & Hs & E). rewrite E. by constructor.
  - split.
    + inversion 1; subst. by exists xs.
    + intros (xs & Hall & Hs & E). rewrite E. by constructor.
  - split.
    + inversion 1; subst. by exists xs.
    + intros (xs & [Hall Hne] & Hs & E). rewrite E. by constructor.
  - apply andb_true_iff in Hp as [Hp1 Hp2]. split.
    + inversion 1 as [| | | | |? ? ? st1 ? H1 H2| | |]; subst.
      apply (IH1 Hp1) in H1 as (x1 & L1 & Hs1 & E1).
      apply (IH2 Hp2) in H2 as (x2 & L2 & Hs2 & E2).
      exists (x1 ++ x2). split; [by exists x1, x2|]. split.
      * by rewrite Hs1, Hs2, app_assoc.
      * rewrite length_app, <- (moved_moved _ _ (rest st1)), <- E1. exact E2.
    + intros (xs & (x1 & x2 & -> & L1 & L2) & Hs & E).
      apply steps_cat with (moved st (length x1) (x2 ++ rest st')).
      * apply (IH1 Hp1). exists x1. simpl. by rewrite Hs, <- app_assoc.
      * apply (IH2 Hp2). exists x2. simpl.
        split; [exact L2|]. split; [reflexivity|]. by rewrite moved_moved, <- length_app.
  - split.
    + inversion 1 as [| | | | | |? ? ? H1|? ?|]; subst.
      * apply (IH1 Hp) in H1 as (xs & L & Hs & E). exists xs. auto.
      * exists []. simpl. rewrite moved_0. auto.
    + intros (xs & [-> | L] & Hs & E).
      * simpl in *. rewrite E, <- Hs, moved_0. apply steps_opt_none.
      * apply steps_opt_some, (IH1 Hp). by exists xs.
Qed.

Section ShapeFacts.
Context `{UnicodeData}.

Lemma GROUP_LINE_parts :
  GROUP_LINE = Cat Bol (Cat MARK (Cat RATIO (Cat (Group NAME) Eol))).
Proof. reflexivity. Qed.

Lemma lang_MARK d : lang MARK d <-> is_mark d.
Proof.
  unfold is_mark; simpl. split.
  - intros [-> | (x1 & x2 & -> & -> & Hws)]; [by left | right; by exists x2].
  - intros [-> | (ws & -> & Hws)]; [by left | right; by exists [CHECK_MARK], ws].
Qed.

Lemma lang_RATIO r : lang RATIO r <-> is_ratio r.
Proof.
  unfold is_ratio; simpl. split.
  - intros [-> | (a & x & -> & [Ha Hane] & y & z & -> & -> & b & ws & -> & [Hb Hbne] & [Hws Hwne])];
      [by left | right].
    exists a, b, ws. simpl. done.
  - intros [-> | (a & b & ws & -> & Hane & Ha & Hbne & Hb & Hwne & Hws)]; [by left | right].
    exists a, (SLASH :: b ++ ws). split; [done|]. split; [done|].
    exists [SLASH], (b ++ ws). split; [done|]. split; [done|].
    exists b, ws. done.
Qed.

Lemma lang_NAME g : lang NAME g <-> is_name g.
Proof. unfold is_name; simpl. tauto. Qed.
End ShapeFacts.

Lemma steps_cat_inv r1 r2 st st' :
  steps (Cat r1 r2) st st' -> exists st1, steps r1 st st1 /\ steps r2 st1 st'.
Proof. inversion 1; subst. eauto. Qed.

Lemma steps_group_inv r st st' :
  steps (Group r) st st' ->
  exists st1, steps r st st1 /\
    st' = {| pos := pos st1; rest := rest st1;
             group1 := Some (take (pos st1 - pos st) (rest st)) |}.
Proof. inversion 1; subst. eauto. Qed.

Lemma ident_range c : is_ident c = true -> 45 <= c <= 122 /\ c <> SLASH.
Proof.
  unfold is_ident, UNDERSCORE, DOT, MINUS, SLASH.
  rewrite !orb_true_iff, !andb_true_iff, !N.leb_le, !N.eqb_eq. lia.
Qed.

Lemma space_range c : is_space c = true -> c <= 32 \/ 133 <= c.
Proof.
  unfold is_space.
  rewrite !orb_true_iff, !andb_true_iff, !N.leb_le, !N.eqb_eq. lia.
Qed.

Lemma space_not_ident c : is_space c = true -> is_ident c = false.
Proof.
  intros Hs. destruct (is_ident c) eqn:Hi; [|done].
  apply ident_range in Hi. apply space_range in Hs. lia.
Qed.

Lemma mark_not_ident : is_ident CHECK_MARK = false.
Proof. reflexivity. Qed.

Lemma newline_not_ident : is_ident NEWLINE = false.
Proof. reflexivity. Qed.

Lemma list_end (l : pstr) : l = [] \/ exists q c, l = q ++ [c].
Proof.
  induction l as [|x l _] using rev_ind; [by left | right; by exists l, x].
Qed.

Lemma take_while_app p xs c s :
  all p xs -> p c = false -> take_while p (xs ++ c :: s) = xs.
Proof.
  induction 1 as [|x xs Hx _ IH]; intros Hc; simpl.
  - by rewrite Hc.
  - by rewrite Hx, IH.
Qed.

Lemma take_while_all p xs : all p xs -> take_while p xs = xs.
Proof. induction 1 as [|x xs Hx _ IH]; simpl; [done|]. by rewrite Hx, IH. Qed.

Section GroupLineFacts.
Context `{UnicodeData}.

(** What stands before the name is empty or ends in a character that
    no name contains. *)
Lemma prefix_end d r :
  is_mark d -> is_ratio r ->
  d ++ r = [] \/ exists q c, d ++ r = q ++ [c] /\ is_ident c = false.
Proof.
  intros Hd [-> | (a & b & ws & -> & _ & _ & _ & _ & Hne & Hws)].
  - rewrite app_nil_r. destruct Hd as [-> | (ws & -> & Hws)]; [by left | right].
    destruct (list_end ws) as [-> | (q & c & ->)].
    + exists [], CHECK_MARK. done.
    + exists (CHECK_MARK :: q), c. split; [done|].
      apply space_not_ident. unfold all in Hws. rewrite Forall_app in Hws.
      destruct Hws as [_ Hc]. by inversion Hc.
  - right.
    destruct (list_end ws) as [-> | (q & c & ->)]; [done|].
    exists (d ++ a ++ SLASH :: b ++ q), c. split.
    + by rewrite <- !app_assoc, <- !app_comm_cons, <- !app_assoc.
    + apply space_not_ident. unfold all in Hws. rewrite Forall_app in Hws.
      destruct Hws as [_ Hc]. by inversion Hc.
Qed.

Lemma name_of_line d r g tail :
  is_mark d -> is_ratio r -> is_name g -> tail = [] \/ tail = [NEWLINE] ->
  name_of (d ++ r ++ g ++ tail) = g.
Proof.
  intros Hd Hr [Hne Hg] Ht. unfold name_of.
  assert (Hc : chomp (rev (d ++ r ++ g ++ tail)) = rev g ++ rev (d ++ r)).
  { rewrite !app_assoc, <- (app_assoc d r), !rev_app_distr.
    destruct Ht as [-> | ->]; simpl.
    - destruct (rev g) as [|c l] eqn:Hrev.
      { apply (f_equal (@rev N)) in Hrev. rewrite rev_involutive in Hrev. done. }
      simpl. assert (Hi : is_ident c = true).
      { assert (Hin : In c (rev g)) by (rewrite Hrev; left; done).
        apply in_rev in Hin. unfold all in Hg. rewrite Forall_forall in Hg.
        apply Hg. by apply list_elem_of_In. }
      destruct (N.eqb_spec c NEWLINE); [subst c; discriminate|].
      by rewrite <- !app_assoc.
    - by rewrite <- !app_assoc. }
  rewrite Hc. assert (Hrg : all is_ident (rev g)).
  { unfold all in *. rewrite Forall_forall in *. intros c Hin. apply Hg.
    apply list_elem_of_In. apply list_elem_of_In in Hin. by apply in_rev. }
  destruct (prefix_end d r Hd Hr) as [-> | (q & c & -> & Hc')].
  - simpl. rewrite app_nil_r, take_while_all, rev_involutive; done.
  - rewrite rev_app_distr. simpl. rewrite take_while_app, rev_involutive; done.
Qed.
End GroupLineFacts.

Section GroupLineSpec.
Context `{UnicodeData}.

Lemma steps_GROUP_LINE_inv s st' :
  steps GROUP_LINE {| pos := 0; rest := s; group1 := None |} st' ->
  exists d r g tail,
    s = d ++ r ++ g ++ tail /\ is_mark d /\ is_ratio r /\ is_name g
    /\ (tail = [] \/ tail = [NEWLINE]) /\ group1 st' = Some g.
Proof.
  rewrite GROUP_LINE_parts. intros Hs.
  apply steps_cat_inv in Hs as (st1 & Hbol & Hs). inversion Hbol; subst st1.
  apply steps_cat_inv in Hs as (st2 & Hm & Hs).
  apply steps_plain in Hm as (d & Ld & Hd & E2); [|done].
  apply steps_cat_inv in Hs as (st3 & Hr & Hs).
  apply steps_plain in Hr as (r & Lr & Hr & E3); [|done].
  apply steps_cat_inv in Hs as (st4 & Hg & Hs).
  apply steps_group_inv in Hg as (st5 & Hg & E4).
  apply steps_plain in Hg as (g & Lg & Hg & E5); [|done].
  inversion Hs as [|? Htail| | | | | | |]; subst.
  exists d, r, g, (rest st5). simpl in *.
  rewrite Hd, Hr, Hg. split; [done|].
  split; [by apply lang_MARK|]. split; [by apply lang_RATIO|].
  split; [by apply lang_NAME|]. split; [done|].
  rewrite E5. simpl. f_equal.
  replace (pos st3 + length g - pos st3)%nat with (length g) by lia.
  by rewrite take_app_length.
Qed.

Lemma steps_GROUP_LINE_intro d r g tail :
  is_mark d -> is_ratio r -> is_name g -> tail = [] \/ tail = [NEWLINE] ->
  exists st',
    steps GROUP_LINE {| pos := 0; rest := d ++ r ++ g ++ tail; group1 := None |} st'
    /\ group1 st' = Some g.
Proof.
  intros Hd Hr Hg Ht. rewrite GROUP_LINE_parts.
  set (st0 := {| pos := 0; rest := d ++ r ++ g ++ tail; group1 := None |}).
  set (st2 := moved st0 (length d) (r ++ g ++ tail)).
  set (st3 := moved st2 (length r) (g ++ tail)).
  set (st4 := moved st3 (length g) tail).
  exists {| pos := pos st4; rest := rest st4;
            group1 := Some (take (pos st4 - pos st3) (rest st3)) |}.
  split.
  - apply steps_cat with st0; [by constructor|].
    apply steps_cat with st2.
    { apply steps_plain; [done|]. exists d. split; [by apply lang_MARK | done]. }
    apply steps_cat with st3.
    { apply steps_plain; [done|]. exists r. split; [by apply lang_RATIO | done]. }
    eapply steps_cat.
    { apply steps_group with (st' := st4). apply steps_plain; [done|].
      exists g. split; [by apply lang_NAME | done]. }
    by constructor.
  - simpl. f_equal.
    replace (length d + length r + length g - (length d + length r))%nat
      with (length g) by lia.
    by rewrite take_app_length.
Qed.

Lemma accepted_parts s g :
  accepted s g <->
  exists d r tail, s = d ++ r ++ g ++ tail /\ is_mark d /\ is_ratio r /\ is_name g
    /\ (tail = [] \/ tail = [NEWLINE]).
Proof.
  split.
  - intros [(d & r & -> & Hd & Hr & Hg) | (s0 & -> & d & r & -> & Hd & Hr & Hg)].
    + exists d, r, []. rewrite app_nil_r. auto 10.
    + exists d, r, [NEWLINE]. rewrite <- !app_assoc. auto 10.
  - intros (d & r & tail & -> & Hd & Hr & Hg & [-> | ->]).
    + left. exists d, r. rewrite app_nil_r. auto.
    + right. exists (d ++ r ++ g). rewrite <- !app_assoc. split; [done|].
      exists d, r. auto.
Qed.

Lemma accepted_name s g : accepted s g -> g = name_of s.
Proof.
  intros (d & r & tail & -> & Hd & Hr & Hg & Ht)%accepted_parts.
  by rewrite name_of_line.
Qed.

(** [GROUP_LINE.match(s)] succeeds with [group(1) = g] exactly on the
    lines the pattern describes. *)
Lemma GROUP_LINE_match s g :
  re_match GROUP_LINE s = Some (Some g) <-> accepted s g.
Proof.
  unfold re_match. split.
  - intros (st' & Hs & Hk)%run_sound.
    apply steps_GROUP_LINE_inv in Hs as (d & r & g' & tail & -> & Hd & Hr & Hg & Ht & Hg1).
    apply accepted_parts. exists d, r, tail.
    assert (g' = g) as -> by congruence. auto 10.
  - intros Hacc. pose proof (accepted_name _ _ Hacc) as Hname.
    apply accepted_parts in Hacc as (d & r & tail & -> & Hd & Hr & Hg & Ht).
    destruct (steps_GROUP_LINE_intro d r g tail Hd Hr Hg Ht) as (st' & Hs & Hg1).
    destruct (run_complete _ _ _ Hs (fun st => Some (group1 st)) (Some g))
      as [og Hog]; [by rewrite Hg1|].
    rewrite Hog. f_equal.
    apply run_sound in Hog as (st'' & Hs' & Hk).
    apply steps_GROUP_LINE_inv in Hs' as (d' & r' & g' & tail' & E & Hd' & Hr' & Hg' & Ht' & Hg1').
    assert (g' = g) as ->.
    { rewrite Hname, E. by rewrite name_of_line. }
    simpl in Hk. injection Hk as <-. exact Hg1'.
Qed.

(** A match always has its group 1. *)
Lemma GROUP_LINE_group1 s : re_match GROUP_LINE s <> Some None.
Proof.
  unfold re_match. intros (st' & Hs & Hk)%run_sound.
  apply steps_GROUP_LINE_inv in Hs as (d & r & g & tail & _ & _ & _ & _ & _ & Hg1).
  simpl in Hk. injection Hk as Hk. rewrite Hk in Hg1. discriminate.
Qed.

Lemma GROUP_LINE_no_match s :
  re_match GROUP_LINE s = None <-> forall g, ~ accepted s g.
Proof.
  split.
  - intros Hn g Hacc%GROUP_LINE_match. congruence.
  - intros Hno. destruct (re_match GROUP_LINE s) as [[g|]|] eqn:Hm; [| |done].
    + apply GROUP_LINE_match in Hm. by destruct (Hno g).
    + by destruct (GROUP_LINE_group1 s).
Qed.
End GroupLineSpec.


(** ** Integers and their text *)

Lemma graphic_not_space c : 33 <= c <= 126 -> is_space c = false.
Proof.
  intros Hc. unfold is_space.
  rewrite !orb_false_iff, !andb_false_iff, !N.leb_gt, !N.eqb_neq. lia.
Qed.

Lemma lstrip_head c s : is_space c = false -> lstrip (c :: s) = c :: s.
Proof. intros Hc. simpl. by rewrite Hc. Qed.


(** What [strip] returns does not end with whitespace. *)
Lemma lstrip_shape s :
  lstrip s = [] \/ exists c t, lstrip s = c :: t /\ is_space c = false.
Proof.
  induction s as [|c s IH]; simpl; [by left|].
  destruct (is_space c) eqn:Hc; [done|]. right. by exists c, s.
Qed.

Lemma strip_end s q c : strip s = q ++ [c] -> is_space c = false.
Proof.
  unfold strip, rstrip. intros Hs.
  destruct (lstrip_shape (rev (lstrip s))) as [E | (c' & t & E & Hc')];
    rewrite E in Hs; simpl in Hs.
  - by destruct q.
  - apply app_inj_tail in Hs as [_ ->]. done.
Qed.

Lemma digits_of_range fuel : forall n,
  Forall (fun c => 48 <= c <= 57) (digits_of fuel n).
Proof.
  induction fuel as [|fuel IH]; intros n; simpl; [constructor|].
  destruct (N.ltb_spec n 10).
  - constructor; [lia | constructor].
  - apply Forall_app. split; [apply IH|].
    constructor; [|constructor].
    assert (Hm : n mod 10 < 10) by (apply N.mod_lt; lia).
    revert Hm. generalize (n mod 10). intros m Hm. lia.
Qed.

Lemma digits_of_nonempty fuel n : digits_of (S fuel) n <> [].
Proof.
  simpl. destruct (n <? 10); [done|]. by destruct (digits_of fuel (n / 10)).
Qed.


Section IntFacts.
Context `{UnicodeData}.

Lemma to_decimal_digit c : 48 <= c <= 57 -> to_decimal c = Some (c - 48).
Proof.
  intros Hc. unfold to_decimal.
  destruct (N.ltb_spec c 128); [|lia].
  destruct (N.leb_spec 48 c); [|lia]. destruct (N.leb_spec c 57); [done|lia].
Qed.

Lemma to_decimal_ascii c :
  c < 128 -> ~ 48 <= c <= 57 -> to_decimal c = None.
Proof.
  intros Hc Hd. unfold to_decimal.
  destruct (N.ltb_spec c 128); [|lia].
  destruct (N.leb_spec 48 c); [|done]. destruct (N.leb_spec c 57); [lia|done].
Qed.



Lemma str_N_range n : Forall (fun c => 48 <= c <= 57) (str_N n).
Proof. apply digits_of_range. Qed.

Lemma str_N_head n : exists c t, str_N n = c :: t /\ 48 <= c <= 57.
Proof.
  pose proof (str_N_range n) as Hr. unfold str_N in *.
  destruct (digits_of _ n) as [|c t] eqn:E; [by apply digits_of_nonempty in E|].
  inversion Hr; subst. by exists c, t.
Qed.



(** A literal without a minus sign is not negative. *)
Lemma py_int_unsigned s i :
  startswith (strip s) MINUS = false -> py_int s = Some i -> (0 <= i)%Z.
Proof.
  unfold py_int. destruct (strip s) as [|c r]; [done|].
  unfold startswith. intros Hm. rewrite Hm. intros Hi.
  destruct (c =? PLUS_SIGN);
    [destruct (int_digits false 0 r) | destruct (int_digits false 0 (c :: r))];
    simpl in Hi; try discriminate; injection Hi as <-; lia.
Qed.
End IntFacts.

(** ** The script, step by step *)

Section ScriptFacts.
Context {St : Type} `{System St} `{UnicodeData}.

(** [read_counters] without the monad. *)
Lemma read_counters_eq (trx_path : pstr) (w : world St) :
  read_counters trx_path w =
  if os_path_exists trx_path (sys w) then
    match ET_parse trx_path (sys w) with
    | Ok root =>
        match find_counters root with
        | Some summary =>
            match py_int (attrib_get summary (u "passed") (u "0")),
                  py_int (attrib_get summary (u "failed") (u "0")),
                  py_int (attrib_get summary (u "notExecuted") (u "0")) with
            | Some passed, Some failed, Some skipped => (Ok (passed, failed, skipped), w)
            | _, _, _ => (Raise ValueError, w)
            end
        | None => (Ok (0, 0, 0)%Z, w)
        end
    | Raise e => if is_ParseError e then (Ok (0, 0, 0)%Z, w) else (Raise e, w)
    end
  else (Ok (0, 0, 0)%Z, w).
Proof.
  unfold read_counters, bind, ask, ask_result, try_except, int_attrib, ret, raise_.
  destruct (os_path_exists trx_path (sys w)); [|done].
  destruct (ET_parse trx_path (sys w)) as [root|e]; [|done].
  destruct (find_counters root) as [summary|]; [|done].
  destruct (py_int (attrib_get summary (u "passed") (u "0"))); [|done].
  destruct (py_int (attrib_get summary (u "failed") (u "0"))); [|done].
  destruct (py_int (attrib_get summary (u "notExecuted") (u "0"))); done.
Qed.

Lemma read_result_eq (group trx_path : pstr) (w : world St) :
  read_result group trx_path w =
  match read_counters trx_path w with
  | (Ok (passed, failed, skipped), w') =>
      (Ok (group, passed, failed, (passed + failed + skipped)%Z), w')
  | (Raise e, w') => (Raise e, w')
  end.
Proof.
  unfold read_result, bind, ret.
  destruct (read_counters trx_path w) as [[[[p f] s]|e] w']; done.
Qed.

(** [read_counters] only looks. *)
Lemma read_counters_frame trx_path w r w' :
  read_counters trx_path w = (r, w') -> w' = w.
Proof.
  rewrite read_counters_eq. intros E.
  repeat match type of E with
         | context [match ?x with _ => _ end] => destruct x
         end; by inversion E.
Qed.

Lemma read_result_frame group trx_path w r w' :
  read_result group trx_path w = (r, w') ->
  w' = w /\ forall res, r = Ok res -> exists p f t, res = (group, p, f, t).
Proof.
  rewrite read_result_eq.
  destruct (read_counters trx_path w) as [[[[p f] s]|e] w1] eqn:E;
    apply read_counters_frame in E as ->; intros [= <- <-].
  - split; [done|]. intros res [= <-]. eauto.
  - split; [done|]. intros res [=].
Qed.

(** The [try] around the runner, without the monad. *)
Lemma invoke_runner_eq (group results_dir : pstr) (w : world St) :
  invoke_runner group results_dir w =
  match spawn (runner_cmd group results_dir) ROOT (sys w) with
  | (Exited _, s') => (Ok tt, World s' (stdout w) (stderr w))
  | (NotStarted, s') => (Raise OSError, World s' (stdout w) (stderr w))
  end.
Proof.
  unfold invoke_runner, try_except, subprocess_run_check, ret.
  destruct (spawn _ _ _) as [[rc|] s']; [|done].
  by destruct (rc =? 0)%Z.
Qed.

(** [run_group] without the monad. *)
Lemma run_group_eq (group results_dir : pstr) (w : world St) :
  run_group group results_dir w =
  match os_makedirs results_dir (sys w) with
  | (Ok _, s1) =>
      match spawn (runner_cmd group results_dir) ROOT s1 with
      | (Exited _, s2) =>
          read_result group (path_join results_dir [group ++ u ".trx"])
            (World s2 (stdout w) (stderr w))
      | (NotStarted, s2) => (Raise OSError, World s2 (stdout w) (stderr w))
      end
  | (Raise e, s1) => (Raise e, World s1 (stdout w) (stderr w))
  end.
Proof.
  unfold run_group, bind, act.
  destruct (os_makedirs results_dir (sys w)) as [[[]|e] s1]; [|done].
  rewrite invoke_runner_eq. simpl.
  by destruct (spawn _ _ s1) as [[rc|] s2].
Qed.

(** [run_group] prints nothing, and names the group it was given. *)
Lemma run_group_frame group results_dir w r w' :
  run_group group results_dir w = (r, w') ->
  stdout w' = stdout w /\ stderr w' = stderr w
  /\ forall res, r = Ok res -> exists p f t, res = (group, p, f, t).
Proof.
  rewrite run_group_eq.
  destruct (os_makedirs results_dir (sys w)) as [[[]|e] s1].
  - destruct (spawn _ _ s1) as [[rc|] s2].
    + intros (-> & Hres)%read_result_frame. done.
    + intros [= <- <-]. done.
  - intros [= <- <-]. done.
Qed.

(** The two forms of a summary line. *)
Lemma summary_line_report name passed failed total :
  report_line name (summary_line name passed failed total).
Proof.
  unfold summary_line, report_line.
  destruct (_ && _); [by left | right; by exists passed, total].
Qed.

(** The loop prints one line per group, in order, until a group raises. *)
Lemma run_groups_report results_dir total_groups groups :
  forall idx summaries w,
  exists lines,
    let '(r, w') := run_groups results_dir total_groups idx groups summaries w in
    stdout w' = stdout w ++ lines /\
    match r with
    | Ok summaries' =>
        summaries' = summaries ++ lines /\ Forall2 report_line groups lines
    | Raise _ =>
        (length lines < length groups)%nat
        /\ Forall2 report_line (take (length lines) groups) lines
    end.
Proof.
  induction groups as [|group groups IH]; intros idx summaries w.
  - exists []. simpl. rewrite !app_nil_r. auto.
  - simpl. unfold bind at 1. unfold print_stderr at 1.
    unfold bind at 1.
    destruct (run_group group results_dir _) as [[res|e] w1] eqn:Hrun.
    + apply run_group_frame in Hrun as (Hout & _ & Hres). simpl in Hout.
      destruct (Hres res eq_refl) as (p & f & t & ->).
      unfold bind at 1. unfold print at 1.
      set (line := summary_line group p f t).
      destruct (IH (S idx) (summaries ++ [line])
                  (World (sys w1) (stdout w1 ++ [line]) (stderr w1))) as [lines Hl].
      exists (line :: lines).
      destruct (run_groups _ _ _ _ _ _) as [[summaries'|e] w2].
      * destruct Hl as (Hw2 & -> & Hall). simpl in Hw2.
        rewrite Hw2, Hout, <- !app_assoc.
        split; [reflexivity|]. split; [reflexivity|].
        constructor; [apply summary_line_report | done].
      * destruct Hl as (Hw2 & Hlen & Hall). simpl in Hw2.
        rewrite Hw2, Hout, <- !app_assoc. simpl.
        split; [reflexivity|]. split; [lia|].
        constructor; [apply summary_line_report | done].
    + apply run_group_frame in Hrun as (Hout & _ & _). simpl in Hout.
      exists []. rewrite app_nil_r. simpl.
      split; [done|]. split; [lia | constructor].
Qed.


Lemma parse_groups_eq path w :
  parse_groups path w =
  match open_text path (sys w) with
  | Ok text => (Ok (parse_text text), w)
  | Raise e => (Raise e, w)
  end.
Proof.
  unfold parse_groups, bind, ask_result, ret.
  by destruct (open_text path (sys w)).
Qed.

(** [main] without the monad. *)
Lemma main_eq a w :
  main a w =
  match parse_groups (groups_path a) w with
  | (Ok [], w1) =>
      (Ok 1%Z, World (sys w1) (stdout w1) (stderr w1 ++ [u "No groups found to run."]))
  | (Ok groups, w1) =>
      match run_groups (results_dir_path a) (length groups) 1 groups [] w1 with
      | (Ok _, w') => (Ok 0%Z, w')
      | (Raise e, w') => (Raise e, w')
      end
  | (Raise e, w1) => (Raise e, w1)
  end.
Proof.
  unfold main. unfold bind at 1.
  destruct (parse_groups (groups_path a) w) as [[[|g groups]|e] w1]; [done| |done].
  unfold bind, ret. by destruct (run_groups _ _ _ _ _ _) as [[?|?] ?].
Qed.
End ScriptFacts.

(** ** The summary line *)

Lemma str_Z_head i : exists c t, str_Z i = c :: t /\ c < 128.
Proof.
  destruct i as [|p|p]; simpl.
  - exists 48, []. done.
  - destruct (str_N_head (N.pos p)) as (c & t & -> & Hc).
    exists c, t. split; [done | lia].
  - exists MINUS, (str_N (N.pos p)). done.
Qed.

Lemma ratio_is_no_mark name passed total :
  str_Z passed ++ u "/" ++ str_Z total ++ u " " ++ name <> CHECK_MARK :: u " " ++ name.
Proof.
  destruct (str_Z_head passed) as (c & t & -> & Hc). simpl.
  intros [= -> _]. unfold CHECK_MARK in Hc. lia.
Qed.

Lemma fully_passed_iff (passed failed total : Z) :
  (failed =? 0)%Z && (0 <? passed)%Z && (passed =? total)%Z = true
  <-> (failed = 0 /\ 0 < passed /\ passed = total)%Z.
Proof. rewrite !andb_true_iff, !Z.eqb_eq, Z.ltb_lt. tauto. Qed.

(** C1: the line printed for a group is the fully-passed marker exactly
    when [failed == 0 and passed > 0 and passed == total], and the ratio
    [passed/total group] in every other case.  A group with [total == 0]
    is never fully passed; with the counts of a result record (none of
    them negative) it is printed as [0/0 group]. *)
Theorem C1_summary_classification (name : pstr) (passed failed total : Z) :
  (summary_line name passed failed total = CHECK_MARK :: u " " ++ name
   <-> (failed = 0 /\ 0 < passed /\ passed = total)%Z)
  /\ (~ (failed = 0 /\ 0 < passed /\ passed = total)%Z ->
      summary_line name passed failed total
      = str_Z passed ++ u "/" ++ str_Z total ++ u " " ++ name)
  /\ (total = 0%Z ->
      summary_line name passed failed total <> CHECK_MARK :: u " " ++ name
      /\ summary_line name passed failed total
         = str_Z passed ++ u "/0 " ++ name)
  /\ (forall skipped : Z,
      (0 <= passed)%Z -> (0 <= failed)%Z -> (0 <= skipped)%Z ->
      total = (passed + failed + skipped)%Z -> total = 0%Z ->
      summary_line name passed failed total = u "0/0 " ++ name).
Proof.
  assert (Hratio : ~ (failed = 0 /\ 0 < passed /\ passed = total)%Z ->
            summary_line name passed failed total
            = str_Z passed ++ u "/" ++ str_Z total ++ u " " ++ name).
  { intros Hno. unfold summary_line.
    destruct (_ && _) eqn:E; [|done]. by apply fully_passed_iff in E. }
  assert (Hiff : summary_line name passed failed total = CHECK_MARK :: u " " ++ name
            <-> (failed = 0 /\ 0 < passed /\ passed = total)%Z).
  { split.
    - intros Hline.
      destruct (decide (failed = 0 /\ 0 < passed /\ passed = total)%Z) as [|Hno];
        [done|].
      rewrite (Hratio Hno) in Hline. by apply ratio_is_no_mark in Hline.
    - intros Hc. unfold summary_line. apply fully_passed_iff in Hc. by rewrite Hc. }
  split; [exact Hiff|]. split; [exact Hratio|]. split.
  - intros ->. split.
    + intros Hline. apply Hiff in Hline. lia.
    + rewrite Hratio by lia. reflexivity.
  - intros skipped Hp Hf Hs Ht H0.
    rewrite Hratio by lia. rewrite H0.
    replace passed with 0%Z by lia. reflexivity.
Qed.

(** ** Reading the result file *)

Section ReaderClaims.
Context {St : Type} `{System St} `{UnicodeData}.

Lemma read_counters_none trx_path w :
  no_counters trx_path (sys w) ->
  read_counters trx_path w = (Ok (0, 0, 0)%Z, w).
Proof.
  rewrite read_counters_eq.
  intros [-> | [[-> ->] | [-> (root & -> & ->)]]]; done.
Qed.

Lemma read_counters_some trx_path w summary :
  has_counters trx_path (sys w) summary ->
  read_counters trx_path w =
  match py_int (attrib_get summary (u "passed") (u "0")),
        py_int (attrib_get summary (u "failed") (u "0")),
        py_int (attrib_get summary (u "notExecuted") (u "0")) with
  | Some passed, Some failed, Some skipped => (Ok (passed, failed, skipped), w)
  | _, _, _ => (Raise ValueError, w)
  end.
Proof.
  rewrite read_counters_eq. intros [-> (root & -> & ->)]. done.
Qed.


(** C6: when the result file of a group does not exist, the reader
    returns the all-zero record, and raises nothing. *)
Theorem C6_missing_result_file (group trx_path : pstr) (w : world St) :
  os_path_exists trx_path (sys w) = false ->
  read_counters trx_path w = (Ok (0, 0, 0)%Z, w)
  /\ read_result group trx_path w = (Ok (group, 0, 0, 0)%Z, w).
Proof.
  intros Hno.
  assert (E : read_counters trx_path w = (Ok (0, 0, 0)%Z, w))
    by (apply read_counters_none; by left).
  split; [exact E|]. by rewrite read_result_eq, E.
Qed.


(** C2, as the code has it: the reader returns a record and raises
    nothing when the file is missing, is not well-formed XML, has no
    counters node, or has one whose three attributes are each missing or
    an integer literal.  A counters node with an attribute that is no
    integer literal makes it raise [ValueError], and a file that cannot
    be read raises what reading it raised. *)
Theorem C2_reader_returns_or_raises (group trx_path : pstr) (w : world St) :
  (no_counters trx_path (sys w) ->
   read_result group trx_path w = (Ok (group, 0, 0, 0)%Z, w))
  /\ (forall summary,
      has_counters trx_path (sys w) summary -> integer_counters summary ->
      exists passed failed skipped : Z,
        read_result group trx_path w
        = (Ok (group, passed, failed, passed + failed + skipped)%Z, w))
  /\ (forall summary,
      has_counters trx_path (sys w) summary -> ~ integer_counters summary ->
      read_result group trx_path w = (Raise ValueError, w))
  /\ (forall e,
      os_path_exists trx_path (sys w) = true ->
      ET_parse trx_path (sys w) = Raise e -> e <> ParseError ->
      read_result group trx_path w = (Raise e, w)).
Proof.
  split; [|split; [|split]]; cycle 3.
  { intros e He Hp Hne. rewrite read_result_eq, read_counters_eq, He, Hp.
    by destruct e. }
  - intros Hno. by rewrite read_result_eq, read_counters_none.
  - intros summary Hc Hint. rewrite read_result_eq, (read_counters_some _ _ _ Hc).
    unfold integer_counters, counter_names in Hint.
    rewrite !Forall_cons in Hint. destruct Hint as ([p ->] & [f ->] & [s ->] & _).
    by exists p, f, s.
  - intros summary Hc Hint. rewrite read_result_eq, (read_counters_some _ _ _ Hc).
    destruct (py_int (attrib_get summary (u "passed") (u "0"))) as [p|] eqn:Ep; [|done].
    destruct (py_int (attrib_get summary (u "failed") (u "0"))) as [f|] eqn:Ef; [|done].
    destruct (py_int (attrib_get summary (u "notExecuted") (u "0"))) as [s|] eqn:Es;
      [|done].
    destruct Hint. unfold integer_counters, counter_names.
    rewrite !Forall_cons, Ep, Ef, Es. eauto 10.
Qed.

(** C9, as the code has it: with no result file, a file that is not
    well-formed XML or a document without counters node, all counts and
    the total are 0; and the counts of a record the reader returns are
    not negative when none of the three attributes has a minus sign.  (A
    negative literal is read as the negative count it writes.) *)
Theorem C9_counts_not_negative (group trx_path : pstr) (w : world St) :
  (no_counters trx_path (sys w) ->
   read_counters trx_path w = (Ok (0, 0, 0)%Z, w)
   /\ read_result group trx_path w = (Ok (group, 0, 0, 0)%Z, w))
  /\ (forall summary passed failed skipped w',
      has_counters trx_path (sys w) summary -> unsigned_counters summary ->
      read_counters trx_path w = (Ok (passed, failed, skipped), w') ->
      (0 <= passed /\ 0 <= failed /\ 0 <= skipped)%Z
      /\ exists total,
           read_result group trx_path w = (Ok (group, passed, failed, total), w')
           /\ total = (passed + failed + skipped)%Z /\ (0 <= total)%Z).
Proof.
  split.
  - intros Hno. split; [by apply read_counters_none|].
    by rewrite read_result_eq, read_counters_none.
  - intros summary passed failed skipped w' Hc Hu E.
    rewrite read_result_eq, E. rewrite (read_counters_some _ _ _ Hc) in E.
    unfold unsigned_counters, counter_names in Hu.
    rewrite !Forall_cons in Hu. destruct Hu as (Hp & Hf & Hs & _).
    destruct (py_int (attrib_get summary (u "passed") (u "0"))) as [p|] eqn:Ep; [|done].
    destruct (py_int (attrib_get summary (u "failed") (u "0"))) as [f|] eqn:Ef; [|done].
    destruct (py_int (attrib_get summary (u "notExecuted") (u "0"))) as [s|] eqn:Es;
      [|done].
    injection E as -> -> -> <-.
    apply (py_int_unsigned _ _ Hp) in Ep. apply (py_int_unsigned _ _ Hf) in Ef.
    apply (py_int_unsigned _ _ Hs) in Es.
    split; [done|]. eexists. split; [reflexivity|]. split; [reflexivity | lia].
Qed.
End ReaderClaims.

(** ** Running the test runner *)

Section RunnerClaims.
Context {St : Type} `{System St} `{UnicodeData}.

(** C3, as the code has it: of the errors of the runner, only an exit
    status other than 0 is swallowed.  Whatever status the runner exits
    with, [run_group] goes on to read the result file from the files the
    runner left; a runner that cannot be started (not installed, say)
    raises [OSError] out of [run_group]. *)
Theorem C3_only_exit_status_swallowed (group results_dir : pstr)
    (w : world St) (s1 : St) :
  os_makedirs results_dir (sys w) = (Ok tt, s1) ->
  match spawn (runner_cmd group results_dir) ROOT s1 with
  | (Exited rc, s2) =>
      invoke_runner group results_dir (World s1 (stdout w) (stderr w))
      = (Ok tt, World s2 (stdout w) (stderr w))
      /\ run_group group results_dir w
         = read_result group (path_join results_dir [group ++ u ".trx"])
             (World s2 (stdout w) (stderr w))
  | (NotStarted, s2) =>
      invoke_runner group results_dir (World s1 (stdout w) (stderr w))
      = (Raise OSError, World s2 (stdout w) (stderr w))
      /\ run_group group results_dir w
         = (Raise OSError, World s2 (stdout w) (stderr w))
  end.
Proof.
  intros Hmk. rewrite run_group_eq, invoke_runner_eq, Hmk. simpl.
  by destruct (spawn _ _ s1) as [[rc|] s2].
Qed.
End RunnerClaims.

(** ** Parsing the group list *)

Section ParserClaims.
Context `{UnicodeData}.

Lemma spec_mark_is_mark d : spec_mark d -> is_mark d.
Proof. intros [-> | (ws & -> & _ & Hws)]; [by left | right; by exists ws]. Qed.

(** Every shape the specification lists is one the pattern accepts. *)
Lemma recognized_group_line s g : recognized_shape s g -> group_line s g.
Proof.
  intros (d & r & -> & Hd & Hr & Hg). exists d, r. auto using spec_mark_is_mark.
Qed.

(** A line the pattern accepts is not empty and is no comment. *)
Lemma group_line_first s g :
  group_line s g -> s <> [] /\ startswith s HASH = false.
Proof.
  intros (d & r & -> & Hd & Hr & [Hne Hg]).
  destruct Hd as [-> | (ws & -> & _)]; [|done]. simpl.
  destruct Hr as [-> | (a & b & ws & -> & Hane & Ha & _)]; simpl.
  - destruct g as [|c g]; [done|]. split; [done|]. simpl.
    inversion Hg as [|? ? Hc _]; subst.
    destruct (N.eqb_spec c HASH) as [->|]; [discriminate | done].
  - destruct a as [|c a]; [done|]. split; [done|]. simpl.
    inversion Ha as [|? ? Hc _]; subst.
    destruct (N.eqb_spec c HASH) as [->|]; [|done].
    unfold is_digit in Hc. by rewrite to_decimal_ascii in Hc.
Qed.

(** On a trimmed line, [$] has no newline to let pass. *)
Lemma accepted_stripped line g :
  accepted (strip line) g <-> group_line (strip line) g.
Proof.
  split; [|by left].
  intros [Hg | (s0 & E & _)]; [done|]. by apply strip_end in E.
Qed.

Lemma parse_line_skip groups line :
  strip line = [] \/ startswith (strip line) HASH = true ->
  parse_line groups line = groups.
Proof.
  unfold parse_line. intros [-> | ->]; [done|]. by rewrite orb_true_r.
Qed.

Lemma parse_line_group groups line g :
  group_line (strip line) g -> parse_line groups line = groups ++ [g].
Proof.
  intros Hg. unfold parse_line.
  destruct (group_line_first _ _ Hg) as [Hne Hh]. rewrite Hh.
  rewrite bool_decide_eq_false_2 by done. simpl.
  apply accepted_stripped, GROUP_LINE_match in Hg. by rewrite Hg.
Qed.

Lemma parse_line_other groups line :
  (forall g, ~ group_line (strip line) g) -> parse_line groups line = groups.
Proof.
  intros Hno. unfold parse_line.
  destruct (_ || _); [done|].
  destruct (re_match GROUP_LINE (strip line)) as [[g|]|] eqn:Hm; [|done|done].
  apply GROUP_LINE_match, accepted_stripped in Hm. by destruct (Hno g).
Qed.

(** One turn of the loop appends nothing, or one name. *)
Lemma parse_line_cases groups line :
  parse_line groups line = groups
  \/ exists g, is_name g /\ parse_line groups line = groups ++ [g].
Proof.
  unfold parse_line. destruct (_ || _); [by left|].
  destruct (re_match GROUP_LINE (strip line)) as [[g|]|] eqn:Hm; [|by left|by left].
  right. exists g. split; [|done].
  apply GROUP_LINE_match, accepted_parts in Hm as (d & r & tail & _ & _ & _ & Hg & _).
  done.
Qed.

(** C4, as the code has it: a line that is blank or a comment after
    trimming gives nothing; a trimmed line of the pattern's shape (an
    optional check mark followed by any whitespace, none included; an
    optional ratio followed by whitespace; an identifier) gives exactly
    its identifier, and so does every shape the specification lists; any
    other line gives nothing.  No case raises. *)
Theorem C4_line_by_line (groups : list pstr) (line : pstr) :
  (strip line = [] \/ startswith (strip line) HASH = true ->
   parse_line groups line = groups)
  /\ (forall g, group_line (strip line) g -> parse_line groups line = groups ++ [g])
  /\ (forall g, recognized_shape (strip line) g ->
      parse_line groups line = groups ++ [g])
  /\ ((forall g, ~ group_line (strip line) g) -> parse_line groups line = groups).
Proof.
  split; [apply parse_line_skip|]. split; [apply parse_line_group|].
  split; [|apply parse_line_other].
  intros g Hg. by apply parse_line_group, recognized_group_line.
Qed.

Lemma name_chars g :
  is_name g ->
  Forall (fun c => is_space c = false /\ c <> CHECK_MARK /\ c <> SLASH) g.
Proof.
  intros [_ Hg]. eapply Forall_impl; [exact Hg|]. simpl. intros c Hc.
  split; [|split].
  - destruct (is_space c) eqn:Hs; [|done]. apply space_not_ident in Hs. congruence.
  - intros ->. by rewrite mark_not_ident in Hc.
  - by apply ident_range in Hc as [_ Hc].
Qed.

Lemma parse_lines_names lines : forall groups,
  Forall is_name groups -> Forall is_name (fold_left parse_line lines groups).
Proof.
  induction lines as [|line lines IH]; intros groups Hg; simpl; [done|].
  apply IH. destruct (parse_line_cases groups line) as [-> | (g & Hn & ->)]; [done|].
  apply Forall_app. split; [done|]. by constructor.
Qed.

Lemma parse_text_names text : Forall clean_name (parse_text text).
Proof.
  eapply Forall_impl; [apply parse_lines_names; constructor|].
  intros g Hg. simpl. destruct Hg as [Hne Hall].
  split; [done|]. split; [done|]. by apply name_chars.
Qed.
End ParserClaims.

(** ** The whole run *)

Section MainClaims.
Context {St : Type} `{System St} `{UnicodeData}.

(** C10: every identifier [parse_groups] returns is a non-empty string
    of letters, digits, dots, underscores and hyphens ([A-Za-z0-9_.-]);
    it holds no whitespace, no check mark and no slash, so nothing of a
    ratio in front of it. *)
Theorem C10_group_names (path : pstr) (w : world St) :
  (forall text, Forall clean_name (parse_text text))
  /\ match parse_groups path w with
     | (Ok groups, _) => Forall clean_name groups
     | (Raise _, _) => True
     end.
Proof.
  split; [apply parse_text_names|]. rewrite parse_groups_eq.
  destruct (open_text path (sys w)); [apply parse_text_names | done].
Qed.

Lemma parse_groups_frame path w r w' : parse_groups path w = (r, w') -> w' = w.
Proof.
  rewrite parse_groups_eq. by destruct (open_text path (sys w)); intros [= <- <-].
Qed.

(** What [main] has printed when it stops: one line per group, in
    order, for all groups when it returns and for the groups before the
    one that raised otherwise. *)
Lemma main_report (a : args) (w : world St) :
  match parse_groups (groups_path a) w with
  | (Ok groups, _) =>
      exists lines,
        stdout (main a w).2 = stdout w ++ lines /\
        match (main a w).1 with
        | Ok _ => Forall2 report_line groups lines
        | Raise _ =>
            (length lines < length groups)%nat
            /\ Forall2 report_line (take (length lines) groups) lines
        end
  | (Raise e, _) => main a w = (Raise e, w)
  end.
Proof.
  rewrite main_eq.
  destruct (parse_groups (groups_path a) w) as [[groups|e] w1] eqn:Hp;
    apply parse_groups_frame in Hp as ->; [|done].
  destruct groups as [|g groups].
  - exists []. simpl. rewrite app_nil_r. auto.
  - set (gs := g :: groups).
    destruct (run_groups_report (results_dir_path a) (length gs) gs 1 [] w)
      as [lines Hl].
    exists lines. destruct (run_groups _ _ _ _ _ _) as [[summaries|e] w'].
    + by destruct Hl as (Hout & _ & Hall).
    + by destruct Hl as (Hout & Hlen & Hall).
Qed.

(** C8: the report of a run has exactly one line per parsed group, in
    the order of the document, with nothing reordered and nothing
    dropped as a duplicate: what [main] has printed when it returns is,
    group by group, the marker line or the ratio line of that group. *)
Theorem C8_one_line_per_group (a : args) (w w' : world St) (code : Z) :
  main a w = (Ok code, w') ->
  exists groups lines,
    parse_groups (groups_path a) w = (Ok groups, w)
    /\ stdout w' = stdout w ++ lines
    /\ length lines = length groups
    /\ Forall2 report_line groups lines.
Proof.
  intros Hmain. pose proof (main_report a w) as Hr. rewrite Hmain in Hr.
  destruct (parse_groups (groups_path a) w) as [[groups|e] w1] eqn:Hp; [|done].
  apply parse_groups_frame in Hp as ->. destruct Hr as (lines & Hout & Hall).
  exists groups, lines. split; [done|]. split; [done|]. split; [|done].
  symmetry. exact (Forall2_length _ _ _ Hall).
Qed.

End MainClaims.

(** ** Further properties of the parser *)

Lemma lstrip_app_space ws s : all is_space ws -> lstrip (ws ++ s) = lstrip s.
Proof. induction 1 as [|c ws Hc _ IH]; simpl; [done|]. by rewrite Hc. Qed.

Lemma lstrip_spaces ws : all is_space ws -> lstrip ws = [].
Proof. intros Hws. rewrite <- (app_nil_r ws). by rewrite lstrip_app_space. Qed.

Lemma lstrip_app s t :
  lstrip s <> [] -> lstrip (s ++ t) = lstrip s ++ t.
Proof.
  induction s as [|c s IH]; simpl; [done|].
  destruct (is_space c); [exact IH | done].
Qed.

Lemma lstrip_nil_spaces s : lstrip s = [] -> all is_space s.
Proof.
  induction s as [|c s IH]; simpl; [constructor|].
  destruct (is_space c) eqn:Hc; [|done]. intros Hs.
  unfold all in *. constructor; [exact Hc | exact (IH Hs)].
Qed.

Lemma all_rev p s : all p s -> all p (rev s).
Proof.
  unfold all. rewrite !Forall_forall. intros Hs c Hc. apply Hs.
  apply list_elem_of_In. apply list_elem_of_In in Hc. by apply in_rev.
Qed.

Lemma rstrip_app_space s ws : all is_space ws -> rstrip (s ++ ws) = rstrip s.
Proof.
  intros Hws. unfold rstrip.
  by rewrite rev_app_distr, lstrip_app_space by by apply all_rev.
Qed.

Lemma strip_app_space ws1 s ws2 :
  all is_space ws1 -> all is_space ws2 -> strip (ws1 ++ s ++ ws2) = strip s.
Proof.
  intros H1 H2. unfold strip. rewrite lstrip_app_space by done.
  destruct (lstrip s) as [|c t] eqn:Hs.
  - apply lstrip_nil_spaces in Hs.
    rewrite lstrip_spaces; [done|]. apply Forall_app. by split.
  - rewrite lstrip_app by by rewrite Hs. rewrite Hs. by apply rstrip_app_space.
Qed.

(** A string that begins and ends with something else than whitespace
    is its own [strip]. *)
Lemma strip_ends c t q c' :
  c :: t = q ++ [c'] -> is_space c = false -> is_space c' = false ->
  strip (c :: t) = c :: t.
Proof.
  intros E Hc Hc'. unfold strip, rstrip. rewrite lstrip_head by done.
  rewrite E, rev_app_distr. simpl. rewrite Hc'. simpl.
  by rewrite rev_involutive.
Qed.

Lemma lstrip_keeps c s : c ∈ s -> is_space c = false -> c ∈ lstrip s.
Proof.
  intros Hin Hc. induction s as [|x s IH]; simpl; [done|].
  destruct (is_space x) eqn:Hx; [|done].
  apply elem_of_cons in Hin as [-> | Hin]; [congruence | auto].
Qed.

Lemma strip_keeps c s : c ∈ s -> is_space c = false -> c ∈ strip s.
Proof.
  intros Hin Hc. unfold strip, rstrip.
  apply list_elem_of_In, in_rev. rewrite rev_involutive.
  apply list_elem_of_In, lstrip_keeps; [|done].
  apply list_elem_of_In, in_rev. rewrite rev_involutive.
  by apply list_elem_of_In, lstrip_keeps.
Qed.

Section ParserMore.
Context `{UnicodeData}.

(** X1: [GROUP_LINE.match(s)] succeeds exactly on the strings made of an
    optional check mark with any whitespace after it, an optional ratio
    (digits, a slash, digits, whitespace) and a name of [A-Za-z0-9_.-],
    with at most one newline after the name; [group(1)] is then that
    name, always set; on every other string there is no match. *)
Theorem X1_GROUP_LINE_accepts (s : pstr) :
  (forall g, re_match GROUP_LINE s = Some (Some g) <-> accepted s g)
  /\ re_match GROUP_LINE s <> Some None
  /\ (re_match GROUP_LINE s = None <-> forall g, ~ accepted s g)
  /\ (forall g g', accepted s g -> accepted s g' -> g = g').
Proof.
  split; [intros g; apply GROUP_LINE_match|].
  split; [apply GROUP_LINE_group1|].
  split; [apply GROUP_LINE_no_match|].
  intros g g' Hg Hg'. apply accepted_name in Hg, Hg'. congruence.
Qed.

(** X2: whitespace before and after a line does not count: an indented
    line, or one with blanks at its end, gives what the bare line gives. *)
Theorem X2_surrounding_whitespace_ignored (groups : list pstr)
    (ws1 line ws2 : pstr) :
  all is_space ws1 -> all is_space ws2 ->
  parse_line groups (ws1 ++ line ++ ws2) = parse_line groups line.
Proof.
  intros H1 H2. unfold parse_line. by rewrite strip_app_space.
Qed.

(** The characters a line of the pattern's shape is made of. *)
Lemma group_line_chars s g c :
  group_line s g -> c ∈ s ->
  c = CHECK_MARK \/ c = SLASH \/ is_space c = true \/ is_digit c = true
  \/ is_ident c = true.
Proof.
  unfold all. intros (d & r & -> & Hd & Hr & [_ Hg]) Hc.
  rewrite !elem_of_app in Hc. destruct Hc as [Hc | [Hc | Hc]].
  - destruct Hd as [-> | (ws & -> & Hws)]; [by apply elem_of_nil in Hc|].
    apply elem_of_cons in Hc as [-> | Hc]; [by left|].
    right; right; left. unfold all in Hws. rewrite Forall_forall in Hws. auto.
  - destruct Hr as [-> | (a & b & ws & -> & _ & Ha & _ & Hb & _ & Hws)];
      [by apply elem_of_nil in Hc|].
    unfold all in *. rewrite Forall_forall in Ha, Hb, Hws.
    rewrite elem_of_app, elem_of_cons, elem_of_app in Hc.
    destruct Hc as [Hc | [-> | [Hc | Hc]]]; auto 10.
  - unfold all in Hg. rewrite Forall_forall in Hg. auto 10.
Qed.

(** X3: a line with a ['#'] anywhere in it gives no group: a comment
    after a group name makes the whole line one that is skipped. *)
Theorem X3_hash_anywhere_skips (groups : list pstr) (line : pstr) :
  HASH ∈ line -> parse_line groups line = groups.
Proof.
  intros Hin. apply parse_line_other. intros g Hg.
  assert (Hc : HASH ∈ strip line) by by apply strip_keeps.
  destruct (group_line_chars _ _ _ Hg Hc) as [E | [E | [E | [E | E]]]];
    discriminate.
Qed.
End ParserMore.

(** ** Line endings, and reading the report back *)

Lemma universal_newlines_id s :
  Forall (fun c => c <> RETURN) s -> universal_newlines s = s.
Proof.
  induction 1 as [|c s Hc _ IH]; simpl; [done|].
  destruct (N.eqb_spec c RETURN); [done|]. by rewrite IH.
Qed.

Lemma universal_newlines_crlf s :
  Forall (fun c => c <> RETURN) s -> universal_newlines (crlf s) = s.
Proof.
  induction 1 as [|c s Hc _ IH]; [done|].
  unfold crlf in *. simpl. destruct (N.eqb_spec c NEWLINE) as [->|Hn]; simpl.
  - by rewrite IH.
  - destruct (N.eqb_spec c RETURN); [done|]. by rewrite IH.
Qed.

Lemma universal_newlines_return t :
  head t <> Some NEWLINE ->
  universal_newlines (RETURN :: t) = NEWLINE :: universal_newlines t.
Proof.
  destruct t as [|c t]; simpl; [done|]. intros Hc.
  destruct (N.eqb_spec c NEWLINE) as [->|]; done.
Qed.

Lemma universal_newlines_other c t :
  c <> RETURN -> universal_newlines (c :: t) = c :: universal_newlines t.
Proof. intros Hc. simpl. by destruct (N.eqb_spec c RETURN). Qed.

Lemma cr_only_head s : head (cr_only s) <> Some NEWLINE.
Proof.
  destruct s as [|c s]; simpl; [done|].
  destruct (N.eqb_spec c NEWLINE); [done|]. by intros [= ->].
Qed.

Lemma universal_newlines_cr_only s :
  Forall (fun c => c <> RETURN) s -> universal_newlines (cr_only s) = s.
Proof.
  induction 1 as [|c s Hc Hs IH]; [done|].
  change (cr_only (c :: s))
    with ((if c =? NEWLINE then RETURN else c) :: cr_only s).
  destruct (N.eqb_spec c NEWLINE) as [->|Hn].
  - rewrite universal_newlines_return by apply cr_only_head. by rewrite IH.
  - rewrite universal_newlines_other by done. by rewrite IH.
Qed.

Lemma readlines_line l : forall cur tail,
  Forall (fun c => c <> NEWLINE) l ->
  readlines cur (l ++ NEWLINE :: tail) = (cur ++ l ++ [NEWLINE]) :: readlines [] tail.
Proof.
  induction l as [|c l IH]; intros cur tail Hl; simpl.
  - done.
  - inversion Hl as [|? ? Hc Hl']; subst.
    destruct (N.eqb_spec c NEWLINE); [done|].
    rewrite IH by done. by rewrite <- app_assoc.
Qed.

Lemma readlines_report lines :
  Forall (Forall (fun c => c <> NEWLINE)) lines ->
  readlines [] (report_text lines) = map (fun line => line ++ [NEWLINE]) lines.
Proof.
  induction 1 as [|l lines Hl _ IH]; [done|].
  unfold report_text in *. simpl. rewrite <- app_assoc. simpl.
  by rewrite readlines_line, IH.
Qed.

Lemma ident_not_space c : is_ident c = true -> is_space c = false.
Proof.
  intros Hc. destruct (is_space c) eqn:Hs; [|done].
  apply space_not_ident in Hs. congruence.
Qed.

Lemma ident_not_newline c : is_ident c = true -> c <> NEWLINE /\ c <> RETURN.
Proof. intros Hc%ident_range. unfold NEWLINE, RETURN. lia. Qed.

Lemma name_of_suffix (q : list N) (c : N) (g : list N) :
  g <> [] -> all is_ident g -> is_ident c = false -> name_of (q ++ c :: g) = g.
Proof.
  intros Hne Hg Hc. unfold name_of.
  assert (Hr : rev (q ++ c :: g) = rev g ++ c :: rev q)
    by (rewrite rev_app_distr; simpl; by rewrite <- app_assoc).
  rewrite Hr.
  assert (Hch : chomp (rev g ++ c :: rev q) = rev g ++ c :: rev q).
  { destruct (rev g) as [|x l] eqn:Hrev.
    { apply (f_equal (@rev N)) in Hrev. rewrite rev_involutive in Hrev. done. }
    simpl. assert (Hx : is_ident x = true).
    { apply all_rev in Hg. rewrite Hrev in Hg. by inversion Hg. }
    apply ident_not_newline in Hx as [Hx _].
    by destruct (N.eqb_spec x NEWLINE). }
  rewrite Hch, take_while_app, rev_involutive; [done | by apply all_rev | done].
Qed.

Lemma app_sep_inj (x : N) (a : list N) : forall a' t t' : list N,
  x ∉ a -> x ∉ a' -> a ++ x :: t = a' ++ x :: t' -> a = a' /\ t = t'.
Proof.
  induction a as [|c a IH]; intros [|c' a'] t t' Ha Ha' E; simpl in E.
  - by injection E as ->.
  - injection E as <- _. destruct Ha'. by left.
  - injection E as -> _. destruct Ha. by left.
  - injection E as -> E.
    destruct (IH a' t t') as [-> ->]; [| |done|done].
    + intros Hin. apply Ha. by right.
    + intros Hin. apply Ha'. by right.
Qed.

Section ReportRoundTrip.
Context `{UnicodeData}.

Lemma digits_all_digit n : all is_digit (str_N n).
Proof.
  eapply Forall_impl; [apply str_N_range|]. simpl. intros c Hc.
  unfold is_digit. by rewrite to_decimal_digit.
Qed.

Lemma str_Z_nonneg i : (0 <= i)%Z -> str_Z i = str_N (Z.to_N i).
Proof. by destruct i. Qed.

Lemma str_Z_neg i : (i < 0)%Z -> exists t, str_Z i = MINUS :: t.
Proof. destruct i; try lia. intros _. by eexists. Qed.

Lemma minus_no_digit : is_digit MINUS = false.
Proof. reflexivity. Qed.

(** Trimming a printed line that ends in a name leaves the line. *)
Lemma strip_printed c t g :
  is_name g -> is_space c = false ->
  strip ((c :: t ++ g) ++ [NEWLINE]) = c :: t ++ g.
Proof.
  intros [Hne Hg] Hc.
  rewrite <- (app_nil_l ((c :: t ++ g) ++ [NEWLINE])).
  rewrite strip_app_space; [|constructor | by repeat constructor].
  destruct (list_end g) as [-> | (q & c' & ->)]; [done|].
  apply strip_ends with (q := c :: t ++ q) (c' := c'); [|done|].
  - simpl. by rewrite app_assoc.
  - apply ident_not_space. unfold all in Hg. rewrite Forall_app in Hg.
    destruct Hg as [_ Hg]. by inversion Hg.
Qed.

Lemma strip_printed_line (line : pstr) c t g :
  line = c :: t ++ g -> is_name g -> is_space c = false ->
  strip (line ++ [NEWLINE]) = line.
Proof. intros ->. apply strip_printed. Qed.

Lemma marker_parses groups g :
  is_name g ->
  parse_line groups ((CHECK_MARK :: u " " ++ g) ++ [NEWLINE]) = groups ++ [g].
Proof.
  intros Hg. apply parse_line_group. rewrite strip_printed by done.
  exists [CHECK_MARK; 32], []. split; [done|]. split; [|split; [by left | done]].
  right. exists [32]. split; [done|]. by repeat constructor.
Qed.

Lemma ratio_parses groups g (passed total : Z) :
  is_name g -> (0 <= passed)%Z -> (0 <= total)%Z ->
  parse_line groups ((str_Z passed ++ u "/" ++ str_Z total ++ u " " ++ g) ++ [NEWLINE])
  = groups ++ [g].
Proof.
  intros Hg Hp Ht. rewrite !str_Z_nonneg by done.
  set (a := str_N (Z.to_N passed)). set (b := str_N (Z.to_N total)).
  destruct (str_N_head (Z.to_N passed)) as (c & t & Ea & Hc). fold a in Ea.
  change (u "/") with [SLASH]. change (u " ") with [32].
  apply parse_line_group.
  rewrite (strip_printed_line _ c (t ++ SLASH :: b ++ [32]) g);
    [|rewrite Ea; by flatten_app | done | apply graphic_not_space; lia].
  exists [], (a ++ SLASH :: b ++ [32]). split.
  { rewrite Ea. by flatten_app. }
  split; [by left|]. split; [|done].
  right. exists a, b, [32]. split; [done|].
  split; [by rewrite Ea|]. split; [apply digits_all_digit|].
  split; [subst b; destruct (str_N_head (Z.to_N total)) as (? & ? & -> & _); done|].
  split; [apply digits_all_digit|]. split; [done | by repeat constructor].
Qed.

Lemma summary_line_parses groups g (passed failed total : Z) :
  is_name g -> (0 <= passed)%Z -> (0 <= total)%Z ->
  parse_line groups (summary_line g passed failed total ++ [NEWLINE]) = groups ++ [g].
Proof.
  intros Hg Hp Ht. unfold summary_line.
  destruct (_ && _); [by apply marker_parses | by apply ratio_parses].
Qed.

Lemma summary_line_no_newline g (passed failed total : Z) :
  is_name g ->
  Forall (fun c => c <> NEWLINE /\ c <> RETURN) (summary_line g passed failed total).
Proof.
  intros [_ Hg].
  assert (Hgn : Forall (fun c => c <> NEWLINE /\ c <> RETURN) g).
  { eapply Forall_impl; [exact Hg|]. intros c. apply ident_not_newline. }
  assert (Hz : forall i, Forall (fun c => c <> NEWLINE /\ c <> RETURN) (str_Z i)).
  { assert (Hn : forall n, Forall (fun c => c <> NEWLINE /\ c <> RETURN) (str_N n)).
    { intros n. eapply Forall_impl; [apply str_N_range|].
      simpl. unfold NEWLINE, RETURN. lia. }
    intros [|p|p]; simpl; auto. }
  unfold summary_line. destruct (_ && _).
  - constructor; [done|]. apply Forall_app. split; [by repeat constructor | done].
  - rewrite !Forall_app. split; [apply Hz|]. split; [by repeat constructor|].
    split; [apply Hz|]. split; [by repeat constructor | done].
Qed.

Lemma parse_lines_summaries rs : forall groups,
  Forall (fun '(g, passed, _, total) =>
            is_name g /\ (0 <= passed)%Z /\ (0 <= total)%Z) rs ->
  fold_left parse_line
    (map (fun line => line ++ [NEWLINE])
       (map (fun '(g, passed, failed, total) => summary_line g passed failed total) rs))
    groups
  = groups ++ map (fun '(g, _, _, _) => g) rs.
Proof.
  induction rs as [|[[[g p] f] t] rs IH]; intros groups Hrs; simpl.
  - by rewrite app_nil_r.
  - inversion Hrs as [|? ? Hx Hrs']; subst. simpl in Hx.
    destruct Hx as (Hg & Hp & Ht).
    rewrite summary_line_parses by done. rewrite IH by done.
    by rewrite <- app_assoc.
Qed.

(** X4: the line endings of the document do not matter: written with
    "\r\n" or with a lone "\r" for every newline, it gives the groups it
    gives with "\n". *)
Theorem X4_line_endings (text : pstr) :
  Forall (fun c => c <> RETURN) text ->
  parse_text (crlf text) = parse_text text
  /\ parse_text (cr_only text) = parse_text text.
Proof.
  intros Hcr. unfold parse_text.
  by rewrite universal_newlines_crlf, universal_newlines_cr_only,
             universal_newlines_id.
Qed.

(** X5: the report can be pasted back: the lines [main] prints for
    results with counts that are not negative, read as a group list,
    give the groups back, in order. *)
Theorem X5_report_reads_back (rs : list (pstr * Z * Z * Z)) :
  Forall (fun '(g, passed, _, total) =>
            is_name g /\ (0 <= passed)%Z /\ (0 <= total)%Z) rs ->
  parse_text
    (report_text
       (map (fun '(g, passed, failed, total) => summary_line g passed failed total) rs))
  = map (fun '(g, _, _, _) => g) rs.
Proof.
  intros Hrs. unfold parse_text.
  set (lines := map _ rs).
  assert (Hl : Forall (Forall (fun c => c <> NEWLINE /\ c <> RETURN)) lines).
  { subst lines. apply Forall_fmap. eapply Forall_impl; [exact Hrs|].
    intros [[[g p] f] t] (Hg & _). simpl. by apply summary_line_no_newline. }
  rewrite universal_newlines_id.
  - rewrite readlines_report.
    + subst lines. by rewrite parse_lines_summaries.
    + eapply Forall_impl; [exact Hl|]. intros l Hc.
      eapply Forall_impl; [exact Hc|]. simpl. tauto.
  - unfold report_text. clear -Hl.
    induction Hl as [|l ls Hc _ IH]; simpl; [constructor|].
    rewrite <- app_assoc. apply Forall_app. split.
    + eapply Forall_impl; [exact Hc|]. simpl. tauto.
    + by constructor.
Qed.

(** X6: a negative count breaks that: the line printed for a result
    with a negative [passed] or [total] is no group line, and reading it
    back gives nothing. *)
Theorem X6_negative_line_is_lost (g : pstr) (passed failed total : Z) :
  is_name g -> (passed < 0 \/ total < 0)%Z ->
  parse_text (report_text [summary_line g passed failed total]) = [].
Proof.
  intros Hg Hneg.
  assert (Hline : summary_line g passed failed total
                  = str_Z passed ++ [SLASH] ++ str_Z total ++ [32] ++ g).
  { unfold summary_line. destruct (_ && _) eqn:E; [|done].
    apply fully_passed_iff in E. lia. }
  pose proof (summary_line_no_newline g passed failed total Hg) as Hnl.
  unfold parse_text, report_text. simpl. rewrite app_nil_r.
  rewrite universal_newlines_id.
  2:{ apply Forall_app. split; [|by repeat constructor].
      eapply Forall_impl; [exact Hnl|]. simpl. tauto. }
  rewrite <- (app_nil_r (_ ++ [NEWLINE])), <- app_assoc. simpl.
  rewrite readlines_line.
  2:{ eapply Forall_impl; [exact Hnl|]. simpl. tauto. }
  simpl. rewrite Hline. clear Hline Hnl.
  destruct (str_Z_head passed) as (c & t & Ec & Hc).
  assert (Hsp : is_space c = false).
  { destruct (Z_lt_le_dec passed 0) as [Hp|Hp].
    - destruct (str_Z_neg _ Hp) as (t' & E'). rewrite E' in Ec.
      by injection Ec as <- _.
    - rewrite str_Z_nonneg in Ec by done.
      destruct (str_N_head (Z.to_N passed)) as (c0 & t0 & E0 & H0).
      rewrite E0 in Ec. injection Ec as <- _. apply graphic_not_space. lia. }
  apply parse_line_other. intros g' Hgl.
  rewrite (strip_printed_line _ c (t ++ SLASH :: str_Z total ++ [32]) g) in Hgl;
    [|rewrite Ec; by flatten_app | done | done].
  assert (g' = g) as ->.
  { assert (Hacc : accepted (str_Z passed ++ [SLASH] ++ str_Z total ++ [32] ++ g) g')
      by by left.
    apply accepted_name in Hacc. rewrite Hacc.
    rewrite <- (name_of_suffix (str_Z passed ++ [SLASH] ++ str_Z total) 32 g)
      at 2; [|by destruct Hg | by destruct Hg | done].
    f_equal. by flatten_app. }
  destruct Hgl as (d & r & E & Hd & Hr & _).
  assert (E' : str_Z passed ++ SLASH :: str_Z total ++ [32] = d ++ r).
  { apply (app_inv_tail g). rewrite <- (app_assoc d r g), <- E. by flatten_app. }
  clear E. rename E' into E.
  destruct (Z_lt_le_dec passed 0) as [Hp|Hp].
  - destruct (str_Z_neg _ Hp) as (t' & E'). rewrite E' in E.
    destruct Hd as [-> | (ws & -> & _)]; [|discriminate].
    destruct Hr as [-> | (a & b & ws & -> & Hane & Ha & _)]; [discriminate|].
    destruct a as [|x a]; [done|]. injection E as <- _.
    inversion Ha as [|? ? Hx _]. by rewrite minus_no_digit in Hx.
  - assert (Ht : (total < 0)%Z) by lia.
    destruct (str_Z_neg _ Ht) as (t' & E'). rewrite E' in E.
    rewrite str_Z_nonneg in E by done.
    destruct (str_N_head (Z.to_N passed)) as (c0 & t0 & E0 & H0).
    destruct Hd as [-> | (ws & -> & _)].
    2:{ rewrite E0 in E. injection E as -> _. unfold CHECK_MARK in H0. lia. }
    destruct Hr as [-> | (a & b & ws & -> & _ & Ha & Hbne & Hb & _)].
    { rewrite E0 in E. discriminate. }
    simpl in E.
    apply app_sep_inj in E as [_ E].
    + destruct b as [|x b]; [done|]. injection E as <- _.
      inversion Hb as [|? ? Hx _]. by rewrite minus_no_digit in Hx.
    + intros Hin. pose proof (str_N_range (Z.to_N passed)) as Hr.
      rewrite Forall_forall in Hr. apply Hr in Hin. unfold SLASH in Hin. lia.
    + intros Hin. unfold all in Ha. rewrite Forall_forall in Ha.
      apply Ha in Hin. discriminate.
Qed.
End ReportRoundTrip.

(** ** Further properties of a run *)

Lemma in_flat_map_elem {A B} (f : A -> list B) (l : list A) (y : B) :
  y ∈ flat_map f l <-> exists x, x ∈ l /\ y ∈ f x.
Proof.
  rewrite list_elem_of_In, in_flat_map. split; intros (x & Hx & Hy); exists x.
  - by rewrite !list_elem_of_In.
  - by rewrite <- !list_elem_of_In.
Qed.

Lemma findall_below_elem (a b : pstr) (root c : Element) :
  c ∈ findall_below a b root <->
  exists parent, parent ∈ below root /\ tag parent = a
                 /\ c ∈ children parent /\ tag c = b.
Proof.
  unfold findall_below, below, has_tag. rewrite in_flat_map_elem. split.
  - intros (parent & Hp & Hc). exists parent.
    apply list_elem_of_filter in Hp as [Ht Hp], Hc as [Hb Hc].
    apply bool_decide_eq_true in Ht, Hb. done.
  - intros (parent & Hp & Ht & Hc & Hb). exists parent.
    rewrite !list_elem_of_filter, !bool_decide_eq_true. done.
Qed.

(** X7: [root.find(".//t:ResultSummary/t:Counters", ns)] returns an
    element tagged [Counters] in the TRX namespace that is a child of an
    element tagged [ResultSummary], in that namespace, strictly below the
    root; it returns [None] exactly when the document has no such pair.
    Elements without the namespace, and a [ResultSummary] that is the
    root itself, are not looked at. *)
Theorem X7_find_counters (root : Element) :
  (forall c, find_counters root = Some c ->
     tag c = qname (u "Counters")
     /\ exists parent, parent ∈ below root
          /\ tag parent = qname (u "ResultSummary") /\ c ∈ children parent)
  /\ (find_counters root = None <->
      forall parent c, parent ∈ below root ->
        tag parent = qname (u "ResultSummary") ->
        c ∈ children parent -> tag c <> qname (u "Counters"))
  /\ (children root = [] -> find_counters root = None).
Proof.
  unfold find_counters, find_below. split; [|split].
  - intros c Hc. apply head_Some_elem_of, findall_below_elem in Hc
      as (parent & Hp & Ht & Hc & Hb). eauto.
  - rewrite head_None. split.
    + intros Hnil parent c Hp Ht Hc Hb.
      assert (Hin : c ∈ findall_below (qname (u "ResultSummary"))
                          (qname (u "Counters")) root)
        by (apply findall_below_elem; eauto).
      rewrite Hnil in Hin. by apply elem_of_nil in Hin.
    + intros Hno.
      destruct (findall_below _ _ root) as [|c l] eqn:E; [done|].
      assert (Hin : c ∈ findall_below (qname (u "ResultSummary"))
                          (qname (u "Counters")) root)
        by (rewrite E; left).
      apply findall_below_elem in Hin as (parent & Hp & Ht & Hc & Hb).
      by destruct (Hno parent c).
  - intros Hch. unfold findall_below. by rewrite Hch.
Qed.

Lemma path_join_relative dir name :
  startswith name SLASH = false ->
  path_join dir [name] = dir ++ join_sep dir ++ name.
Proof.
  intros Hn. unfold path_join, join_sep. simpl. unfold path_join2.
  rewrite Hn. by destruct (_ || _).
Qed.

Lemma path_join_absolute dir name :
  startswith name SLASH = true -> path_join dir [name] = name.
Proof. intros Hn. unfold path_join. simpl. unfold path_join2. by rewrite Hn. Qed.

Section RunMore.
Context {St : Type} `{System St} `{UnicodeData}.

(** X8: tests that were not executed count against a group: with the
    counters [passed], [failed] and [notExecuted] read from the result
    file, the line of the group is the fully-passed marker exactly when
    [failed] and [notExecuted] are both 0 and [passed] is positive. *)
Theorem X8_skipped_is_not_passed (group trx_path : pstr) (w w' : world St)
    (passed failed skipped : Z) :
  read_counters trx_path w = (Ok (passed, failed, skipped), w') ->
  exists total,
    total = (passed + failed + skipped)%Z
    /\ read_result group trx_path w = (Ok (group, passed, failed, total), w')
    /\ (summary_line group passed failed total = CHECK_MARK :: u " " ++ group
        <-> (failed = 0 /\ skipped = 0 /\ 0 < passed)%Z).
Proof.
  intros E. exists (passed + failed + skipped)%Z. split; [done|].
  split; [by rewrite read_result_eq, E|]. split.
  - intros Hline.
    destruct (decide (failed = 0 /\ 0 < passed
                      /\ passed = passed + failed + skipped)%Z) as [Hc|Hno];
      [lia|].
    unfold summary_line in Hline. destruct (_ && _) eqn:Hb.
    + apply fully_passed_iff in Hb. lia.
    + by apply ratio_is_no_mark in Hline.
  - intros (-> & -> & Hp). unfold summary_line.
    assert (Hb : (0 =? 0)%Z && (0 <? passed)%Z && (passed =? passed + 0 + 0)%Z = true)
      by (apply fully_passed_iff; lia).
    by rewrite Hb.
Qed.

(** X9: the result file of a parsed group is looked for in the results
    directory itself: for every name [parse_groups] can return, the path
    is the directory, a slash unless the directory is empty or ends in
    one, and [name.trx], a file name without slash.  (A name that starts
    with a slash, which the parser never returns, would make
    [os.path.join] drop the directory.) *)
Theorem X9_result_file_in_results_dir (text results_dir : pstr) :
  Forall (fun g =>
            path_join results_dir [g ++ u ".trx"]
            = results_dir ++ join_sep results_dir ++ g ++ u ".trx"
            /\ SLASH ∉ g ++ u ".trx")
    (parse_text text)
  /\ (forall g, startswith g SLASH = true ->
        path_join results_dir [g ++ u ".trx"] = g ++ u ".trx").
Proof.
  split.
  - eapply Forall_impl; [apply parse_text_names|].
    intros g (Hne & Hid & Hch). simpl. destruct g as [|c g]; [done|].
    split.
    + apply path_join_relative. simpl.
      inversion Hch as [|? ? (_ & _ & Hc) _]; subst.
      by destruct (N.eqb_spec c SLASH).
    + rewrite elem_of_app. intros [Hin | Hin].
      * rewrite Forall_forall in Hch. by destruct (Hch _ Hin) as (_ & _ & []).
      * change (u ".trx") with [DOT; 116; 114; 120] in Hin.
        repeat (apply elem_of_cons in Hin as [Hin | Hin]; [discriminate|]).
        by apply elem_of_nil in Hin.
  - intros g Hg. apply path_join_absolute. by destruct g.
Qed.

(** X10: [run_group] prints nothing on either stream, returns the name
    it was given, and changes the system only by creating the results
    directory and running the test runner: reading the result file
    leaves the system as the runner left it. *)
Theorem X10_run_group_effects (group results_dir : pstr) (w : world St) :
  stdout (run_group group results_dir w).2 = stdout w
  /\ stderr (run_group group results_dir w).2 = stderr w
  /\ (forall name passed failed total,
        (run_group group results_dir w).1 = Ok (name, passed, failed, total) ->
        name = group)
  /\ sys (run_group group results_dir w).2
     = match os_makedirs results_dir (sys w) with
       | (Ok _, s1) => (spawn (runner_cmd group results_dir) ROOT s1).2
       | (Raise _, s1) => s1
       end.
Proof.
  destruct (run_group group results_dir w) as [r w'] eqn:E.
  pose proof (run_group_frame _ _ _ _ _ E) as (Hout & Herr & Hname).
  split; [done|]. split; [done|]. split.
  - simpl. intros name p f t ->. destruct (Hname _ eq_refl) as (? & ? & ? & [=]).
    done.
  - rewrite run_group_eq in E.
    destruct (os_makedirs results_dir (sys w)) as [[[]|e] s1].
    + destruct (spawn _ _ s1) as [[rc|] s2]; simpl.
      * by apply read_result_frame in E as [-> _].
      * by injection E as _ <-.
    + by injection E as _ <-.
Qed.

(** X11: with a document that cannot be read, or one without a group,
    nothing is run: [main] raises what opening the document raised, or
    returns 1 after the one line "No groups found to run." on standard
    error; the system is as it was (no directory made, no runner
    started) and standard output is untouched. *)
Theorem X11_nothing_to_run (a : args) (w : world St) :
  match open_text (groups_path a) (sys w) with
  | Raise e => main a w = (Raise e, w)
  | Ok text =>
      parse_text text = [] ->
      main a w = (Ok 1%Z, World (sys w) (stdout w)
                            (stderr w ++ [u "No groups found to run."]))
  end.
Proof.
  rewrite main_eq, parse_groups_eq.
  destruct (open_text (groups_path a) (sys w)) as [text|e]; [|done].
  by intros ->.
Qed.

Lemma progress_lines_cons first total_groups g gs :
  progress_lines first total_groups (g :: gs)
  = progress_line first total_groups g :: progress_lines (S first) total_groups gs.
Proof.
  unfold progress_lines. rewrite imap_cons, Nat.add_0_r. f_equal.
  apply imap_ext. intros i x _. simpl. f_equal. lia.
Qed.

(** What the loop has written on both streams when it stops. *)
Lemma run_groups_trace results_dir total_groups groups :
  forall idx summaries w,
  exists lines,
    let '(r, w') := run_groups results_dir total_groups idx groups summaries w in
    stdout w' = stdout w ++ lines
    /\ Forall2 report_line (take (length lines) groups) lines
    /\ match r with
       | Ok _ =>
           length lines = length groups
           /\ stderr w' = stderr w ++ progress_lines idx total_groups groups
       | Raise _ =>
           (length lines < length groups)%nat
           /\ stderr w' = stderr w
                ++ progress_lines idx total_groups (take (S (length lines)) groups)
       end.
Proof.
  induction groups as [|group groups IH]; intros idx summaries w.
  - exists []. simpl. rewrite !app_nil_r. repeat split; constructor.
  - simpl. unfold bind at 1. unfold print_stderr at 1. unfold bind at 1.
    destruct (run_group group results_dir _) as [[res|e] w1] eqn:Hrun.
    + apply run_group_frame in Hrun as (Hout & Herr & Hres). simpl in Hout, Herr.
      destruct (Hres res eq_refl) as (p & f & t & ->).
      unfold bind at 1. unfold print at 1.
      set (line := summary_line group p f t).
      destruct (IH (S idx) (summaries ++ [line])
                  (World (sys w1) (stdout w1 ++ [line]) (stderr w1))) as [lines Hl].
      exists (line :: lines).
      destruct (run_groups _ _ _ _ _ _) as [[summaries'|e] w2];
        destruct Hl as (Hw2 & Hall & Hlen & Herr2); simpl in Hw2, Herr2;
        rewrite Hw2, Hout, Herr2, Herr, <- !app_assoc; simpl;
        (split; [reflexivity|]);
        (split; [constructor; [apply summary_line_report | done]|]);
        rewrite progress_lines_cons.
      * split; [by rewrite Hlen | done].
      * split; [lia | done].
    + apply run_group_frame in Hrun as (Hout & Herr & _). simpl in Hout, Herr.
      exists []. rewrite app_nil_r. simpl. split; [done|]. split; [constructor|].
      split; [lia|]. rewrite Herr. rewrite take_0. rewrite progress_lines_cons.
      done.
Qed.

(** X12: standard error carries the progress of the run: when [main]
    returns it has written, after what was there, one line
    "[i/n] Running group..." per group, numbered from 1 in the order of
    the document, or the one line "No groups found to run." when the
    document has no group. *)
Theorem X12_progress_lines (a : args) (w w' : world St) (code : Z) :
  main a w = (Ok code, w') ->
  exists groups,
    parse_groups (groups_path a) w = (Ok groups, w)
    /\ stderr w'
       = stderr w ++ match groups with
                     | [] => [u "No groups found to run."]
                     | _ => progress_lines 1 (length groups) groups
                     end
    /\ (forall (i : nat) (g : pstr), groups !! i = Some g ->
          progress_lines 1 (length groups) groups !! i
          = Some (u "[" ++ str_Z (Z.of_nat (S i)) ++ u "/"
                    ++ str_Z (Z.of_nat (length groups)) ++ u "] Running "
                    ++ g ++ u "...")).
Proof.
  rewrite main_eq.
  destruct (parse_groups (groups_path a) w) as [[groups|e] w1] eqn:Hp;
    apply parse_groups_frame in Hp as ->; [|done].
  intros Hmain. exists groups. split; [done|]. split.
  - destruct groups as [|g groups]; [by injection Hmain as _ <-|].
    set (gs := g :: groups) in *.
    destruct (run_groups_trace (results_dir_path a) (length gs) gs 1 [] w)
      as [lines Hl].
    destruct (run_groups _ _ _ _ _ _) as [[summaries|e] w2]; [|done].
    injection Hmain as _ <-. by destruct Hl as (_ & _ & _ & ->).
  - intros i g Hg. unfold progress_lines.
    rewrite list_lookup_imap. change (list N) with pstr in *. by rewrite Hg.
Qed.

(** X13: a group that raises stops the run.  When [main] raises after
    the groups were parsed, it raised in the run of some group: the
    groups before it have their line on standard output, in order; that
    group was announced on standard error and has no line; the groups
    after it are neither announced nor reported. *)
Theorem X13_a_raising_group_stops_the_run (a : args) (w w' : world St)
    (groups : list pstr) (e : exn) :
  parse_groups (groups_path a) w = (Ok groups, w) ->
  main a w = (Raise e, w') ->
  exists k lines,
    (k < length groups)%nat /\ length lines = k
    /\ stdout w' = stdout w ++ lines
    /\ Forall2 report_line (take k groups) lines
    /\ stderr w' = stderr w ++ progress_lines 1 (length groups) (take (S k) groups).
Proof.
  intros Hp. rewrite main_eq, Hp.
  destruct groups as [|g groups]; [done|].
  set (gs := g :: groups) in *.
  destruct (run_groups_trace (results_dir_path a) (length gs) gs 1 [] w)
    as [lines Hl].
  destruct (run_groups _ _ _ _ _ _) as [[summaries|e'] w2]; [done|].
  intros [= -> ->]. destruct Hl as (Hout & Hall & Hlen & Herr).
  exists (length lines), lines. done.
Qed.
End RunMore.

(** ** Documents put together *)

Lemma universal_newlines_app_line s t :
  Forall (fun c => c <> RETURN) s ->
  universal_newlines (s ++ NEWLINE :: t) = s ++ NEWLINE :: universal_newlines t.
Proof.
  induction 1 as [|c s Hc _ IH].
  - simpl. by destruct (N.eqb_spec NEWLINE RETURN).
  - rewrite <- app_comm_cons, universal_newlines_other by done. by rewrite IH.
Qed.

Lemma readlines_split s : forall cur t,
  readlines cur (s ++ NEWLINE :: t) = readlines cur (s ++ [NEWLINE]) ++ readlines [] t.
Proof.
  induction s as [|c s IH]; intros cur t; simpl; [done|].
  destruct (c =? NEWLINE); [|apply IH]. by rewrite IH.
Qed.

Section Documents.
Context `{UnicodeData}.

Lemma parse_line_acc groups line :
  parse_line groups line = groups ++ parse_line [] line.
Proof.
  unfold parse_line. destruct (_ || _); [by rewrite app_nil_r|].
  destruct (re_match GROUP_LINE (strip line)) as [[g|]|];
    [done | by rewrite app_nil_r | by rewrite app_nil_r].
Qed.

Lemma parse_lines_acc lines : forall groups,
  fold_left parse_line lines groups = groups ++ fold_left parse_line lines [].
Proof.
  induction lines as [|line lines IH]; intros groups; simpl.
  - by rewrite app_nil_r.
  - rewrite IH, (IH (parse_line [] line)), (parse_line_acc groups line).
    by rewrite <- app_assoc.
Qed.

Lemma parse_line_newline groups line :
  parse_line groups (line ++ [NEWLINE]) = parse_line groups line.
Proof.
  unfold parse_line.
  rewrite <- (app_nil_l (line ++ [NEWLINE])), strip_app_space;
    [done | constructor | by repeat constructor].
Qed.

Lemma parse_lines_final_newline s : forall cur groups,
  fold_left parse_line (readlines cur (s ++ [NEWLINE])) groups
  = fold_left parse_line (readlines cur s) groups.
Proof.
  induction s as [|c s IH]; intros cur groups; simpl.
  - rewrite parse_line_newline. destruct cur as [|x cur]; [|done].
    simpl. unfold parse_line. done.
  - destruct (c =? NEWLINE); simpl; by rewrite IH.
Qed.

(** X14: a document put after another, on a line of its own, adds its
    groups after those of the first: the groups of the two texts with a
    newline between them are the groups of the first followed by the
    groups of the second. *)
Theorem X14_documents_concatenate (first second : pstr) :
  Forall (fun c => c <> RETURN) first ->
  parse_text (first ++ NEWLINE :: second) = parse_text first ++ parse_text second.
Proof.
  intros Hcr. unfold parse_text.
  rewrite universal_newlines_app_line, (universal_newlines_id first) by done.
  rewrite readlines_split, fold_left_app, parse_lines_final_newline.
  apply parse_lines_acc.
Qed.
End Documents.

(** ** The claims on examples *)

Import Sim Fixtures.

(** The runner fails with status 1, and the file it left is read. *)
Lemma C3_witness_failing_runner :
  @os_makedirs _ sys_failing results fs0 = (Ok tt, fs0)
  /\ @run_group _ sys_failing ascii_digits (u "RegExp") results (start fs0)
     = (Ok (u "RegExp", 8, 2, 10)%Z, start fs0).
Proof.
  assert (Hmk : @os_makedirs _ sys_failing results (sys (start fs0)) = (Ok tt, fs0))
    by (vm_compute; reflexivity).
  split; [exact Hmk|].
  etransitivity;
    [exact (proj2 (@C3_only_exit_status_swallowed _ sys_failing ascii_digits
                     (u "RegExp") results (start fs0) fs0 Hmk))|].
  vm_compute. reflexivity.
Defined.

(** The runner is not installed: [run_group] raises, although a result
    file of an earlier run is there. *)
Lemma C3_counterexample_runner_missing :
  @run_group _ sys_missing ascii_digits (u "RegExp") results (start fs0)
  = (Raise OSError, start fs0).
Proof. vm_compute. reflexivity. Qed.


(** No result file for [Promise]. *)
Lemma C6_witness_no_file :
  @os_path_exists _ sys0 (u "/tmp/jsengine-results/Promise.trx") fs0 = false
  /\ @read_result _ sys0 ascii_digits (u "Promise")
       (u "/tmp/jsengine-results/Promise.trx") (start fs0)
     = (Ok (u "Promise", 0, 0, 0)%Z, start fs0).
Proof.
  assert (Hno : @os_path_exists _ sys0 (u "/tmp/jsengine-results/Promise.trx")
                  (sys (start fs0)) = false) by (vm_compute; reflexivity).
  split; [exact Hno|].
  exact (proj2 (@C6_missing_result_file _ sys0 ascii_digits (u "Promise") _ _ Hno)).
Defined.

(** Three groups, three lines. *)
Lemma C8_witness_three_groups :
  exists w',
    @main _ sys0 ascii_digits (@default_args _ sys0) (start fs0) = (Ok 0%Z, w')
    /\ exists groups lines,
         @parse_groups _ sys0 ascii_digits (groups_path (@default_args _ sys0))
           (start fs0) = (Ok groups, start fs0)
         /\ stdout w' = stdout (start fs0) ++ lines
         /\ length lines = length groups
         /\ Forall2 report_line groups lines.
Proof.
  exists (@main _ sys0 ascii_digits (@default_args _ sys0) (start fs0)).2.
  assert (Hm : @main _ sys0 ascii_digits (@default_args _ sys0) (start fs0)
               = (Ok 0%Z, (@main _ sys0 ascii_digits (@default_args _ sys0)
                             (start fs0)).2))
    by (vm_compute; reflexivity).
  split; [exact Hm|].
  exact (@C8_one_line_per_group _ sys0 ascii_digits _ _ _ _ Hm).
Defined.

(** [passed="abc"]: [int] raises [ValueError], and nothing catches it. *)
Lemma C2_counterexample_not_a_number :
  @read_result _ sys0 ascii_digits (u "Promise")
    (u "/tmp/jsengine-results/Promise.trx") (start fs1)
  = (Raise ValueError, start fs1)
  /\ @run_group _ sys0 ascii_digits (u "Promise") results (start fs1)
     = (Raise ValueError, start fs1).
Proof. split; vm_compute; reflexivity. Qed.

(** [passed="-1"]: the record has a negative count and a negative total. *)
Lemma C9_counterexample_negative_count :
  @read_result _ sys0 ascii_digits (u "Proxy")
    (u "/tmp/jsengine-results/Proxy.trx") (start fs1)
  = (Ok (u "Proxy", -1, 0, -1)%Z, start fs1).
Proof. vm_compute. reflexivity. Qed.


(** A check mark with no whitespace after it is none of the shapes the
    specification lists, and the line gives a group all the same. *)
Lemma C4_counterexample_mark_without_space :
  (forall g, ~ @recognized_shape ascii_digits (u "✅Foo") g)
  /\ @parse_line ascii_digits [] (u "✅Foo") = [u "Foo"].
Proof.
  split; [|vm_compute; reflexivity].
  intros g (d & r & E & Hd & Hr & [Hne Hg]).
  change (u "✅Foo") with [CHECK_MARK; 70; 111; 111] in E.
  destruct Hd as [-> | (ws & -> & Hws & Hsp)].
  - destruct Hr as [-> | (a & b & ws & -> & Hane & Ha & _)].
    + simpl in E. subst g. inversion Hg as [|? ? Hc _]. discriminate.
    + destruct a as [|c a]; [done|]. injection E as <- _.
      inversion Ha as [|? ? Hc _]. discriminate.
  - destruct ws as [|c ws]; [done|]. injection E as <- _.
    inversion Hsp as [|? ? Hc _]. discriminate.
Qed.

(** ** The further properties on examples *)

(** An indented line with a blank at its end. *)
Lemma X2_witness_indented_line :
  all is_space [32; 9] /\ all is_space [32]
  /\ @parse_line ascii_digits [] ([32; 9] ++ u "12/15 RegExp" ++ [32]) = [u "RegExp"].
Proof.
  assert (H1 : all is_space [32; 9]) by (repeat constructor).
  assert (H2 : all is_space [32]) by (repeat constructor).
  split; [exact H1|]. split; [exact H2|].
  etransitivity;
    [exact (@X2_surrounding_whitespace_ignored ascii_digits [] _ _ _ H1 H2)|].
  vm_compute. reflexivity.
Defined.

(** A group name with a comment after it. *)
Lemma X3_witness_trailing_comment :
  HASH ∈ u "Promise " ++ HASH :: u " later"
  /\ @parse_line ascii_digits [u "RegExp"] (u "Promise " ++ HASH :: u " later")
     = [u "RegExp"].
Proof.
  assert (Hin : HASH ∈ u "Promise " ++ HASH :: u " later")
    by (apply elem_of_app; right; left).
  split; [exact Hin|].
  exact (@X3_hash_anywhere_skips ascii_digits _ _ Hin).
Defined.

(** Two lines, written the three ways. *)
Lemma X4_witness_two_lines :
  Forall (fun c => c <> RETURN) (u "RegExp" ++ NEWLINE :: u "Promise")
  /\ @parse_text ascii_digits (u "RegExp" ++ RETURN :: NEWLINE :: u "Promise")
     = [u "RegExp"; u "Promise"]
  /\ @parse_text ascii_digits (u "RegExp" ++ RETURN :: u "Promise")
     = [u "RegExp"; u "Promise"].
Proof.
  assert (Hcr : Forall (fun c => c <> RETURN) (u "RegExp" ++ NEWLINE :: u "Promise"))
    by (vm_compute; repeat (constructor; [discriminate|]); constructor).
  split; [exact Hcr|].
  destruct (@X4_line_endings ascii_digits _ Hcr) as [E1 E2].
  split; [etransitivity; [exact E1|] | etransitivity; [exact E2|]];
    vm_compute; reflexivity.
Defined.

(** A line with a ratio, a marker line, and a [0/0] line. *)
Lemma X5_witness_three_lines :
  Forall (fun '(g, passed, _, total) =>
            @is_name g /\ (0 <= passed)%Z /\ (0 <= total)%Z)
    [(u "RegExp", 8, 2, 10)%Z; (u "Promise", 10, 0, 10)%Z; (u "Proxy", 0, 0, 0)%Z]
  /\ @parse_text ascii_digits
       (report_text
          (map (fun '(g, passed, failed, total) => summary_line g passed failed total)
             [(u "RegExp", 8, 2, 10)%Z; (u "Promise", 10, 0, 10)%Z;
              (u "Proxy", 0, 0, 0)%Z]))
     = [u "RegExp"; u "Promise"; u "Proxy"].
Proof.
  assert (Hrs : Forall (fun '(g, passed, _, total) =>
                          @is_name g /\ (0 <= passed)%Z /\ (0 <= total)%Z)
                  [(u "RegExp", 8, 2, 10)%Z; (u "Promise", 10, 0, 10)%Z;
                   (u "Proxy", 0, 0, 0)%Z]).
  { repeat (constructor;
              [split; [split; [discriminate | by vm_compute; repeat constructor]
                      | split; lia]|]).
    constructor. }
  split; [exact Hrs|].
  exact (@X5_report_reads_back ascii_digits _ Hrs).
Defined.

(** A result with [passed = -1]. *)
Lemma X6_witness_negative_passed :
  is_name (u "Proxy")
  /\ ((-1 < 0)%Z \/ (-1 < 0)%Z)
  /\ @parse_text ascii_digits (report_text [summary_line (u "Proxy") (-1) 0 (-1)]) = [].
Proof.
  assert (Hg : is_name (u "Proxy"))
    by (split; [discriminate | by vm_compute; repeat constructor]).
  assert (Hneg : (-1 < 0)%Z \/ (-1 < 0)%Z) by (left; lia).
  split; [exact Hg|]. split; [exact Hneg|].
  exact (@X6_negative_line_is_lost ascii_digits _ _ 0%Z _ Hg Hneg).
Defined.

(** Five tests passed and one was not executed: no marker. *)
Lemma X8_witness_one_skipped :
  @read_counters _ sys0 ascii_digits (u "/tmp/jsengine-results/Symbol.trx") (start fs2)
  = (Ok (5, 0, 1)%Z, start fs2)
  /\ exists total,
       total = (5 + 0 + 1)%Z
       /\ @read_result _ sys0 ascii_digits (u "Symbol")
         (u "/tmp/jsengine-results/Symbol.trx") (start fs2)
       = (Ok (u "Symbol", 5, 0, total)%Z, start fs2)
       /\ (summary_line (u "Symbol") 5 0 total = CHECK_MARK :: u " " ++ u "Symbol"
           <-> (0 = 0 /\ 1 = 0 /\ 0 < 5)%Z).
Proof.
  assert (E : @read_counters _ sys0 ascii_digits
                (u "/tmp/jsengine-results/Symbol.trx") (start fs2)
              = (Ok (5, 0, 1)%Z, start fs2)) by (vm_compute; reflexivity).
  split; [exact E|].
  exact (@X8_skipped_is_not_passed _ sys0 ascii_digits (u "Symbol") _ _ _ _ _ _ E).
Defined.

(** Three groups, three progress lines. *)
Lemma X12_witness_three_groups :
  exists w',
    @main _ sys0 ascii_digits (@default_args _ sys0) (start fs0) = (Ok 0%Z, w')
    /\ stderr w' = [u "[1/3] Running Array.prototype.map...";
                    u "[2/3] Running RegExp..."; u "[3/3] Running Promise..."].
Proof.
  exists (@main _ sys0 ascii_digits (@default_args _ sys0) (start fs0)).2.
  assert (Hm : @main _ sys0 ascii_digits (@default_args _ sys0) (start fs0)
               = (Ok 0%Z, (@main _ sys0 ascii_digits (@default_args _ sys0)
                             (start fs0)).2))
    by (vm_compute; reflexivity).
  split; [exact Hm|].
  destruct (@X12_progress_lines _ sys0 ascii_digits _ _ _ _ Hm)
    as (groups & Hp & Herr & _).
  assert (groups = [u "Array.prototype.map"; u "RegExp"; u "Promise"]) as ->.
  { assert (Hq : @parse_groups _ sys0 ascii_digits
                   (groups_path (@default_args _ sys0)) (start fs0)
                 = (Ok [u "Array.prototype.map"; u "RegExp"; u "Promise"], start fs0))
      by (vm_compute; reflexivity).
    rewrite Hq in Hp. by injection Hp as <-. }
  rewrite Herr. vm_compute. reflexivity.
Defined.

(** The second of three groups has a counter that is no number: one
    line printed, two groups announced. *)
Lemma X13_witness_second_group_raises :
  exists w',
    @parse_groups _ sys0 ascii_digits (groups_path (@default_args _ sys0)) (start fs2)
    = (Ok [u "RegExp"; u "Promise"; u "Symbol"], start fs2)
    /\ @main _ sys0 ascii_digits (@default_args _ sys0) (start fs2)
       = (Raise ValueError, w')
    /\ exists k lines,
         (k < 3)%nat /\ length lines = k
         /\ stdout w' = stdout (start fs2) ++ lines
         /\ Forall2 report_line (take k [u "RegExp"; u "Promise"; u "Symbol"]) lines
         /\ stderr w' = stderr (start fs2)
              ++ progress_lines 1 3 (take (S k) [u "RegExp"; u "Promise"; u "Symbol"]).
Proof.
  exists (@main _ sys0 ascii_digits (@default_args _ sys0) (start fs2)).2.
  assert (Hp : @parse_groups _ sys0 ascii_digits
                 (groups_path (@default_args _ sys0)) (start fs2)
               = (Ok [u "RegExp"; u "Promise"; u "Symbol"], start fs2))
    by (vm_compute; reflexivity).
  assert (Hm : @main _ sys0 ascii_digits (@default_args _ sys0) (start fs2)
               = (Raise ValueError,
                  (@main _ sys0 ascii_digits (@default_args _ sys0) (start fs2)).2))
    by (vm_compute; reflexivity).
  split; [exact Hp|]. split; [exact Hm|].
  exact (@X13_a_raising_group_stops_the_run _ sys0 ascii_digits _ _ _ _ _ Hp Hm).
Defined.

(** A list of two groups, and one more group after it. *)
Lemma X14_witness_one_more_group :
  Forall (fun c => c <> RETURN) (u "RegExp" ++ NEWLINE :: u "✅ Promise")
  /\ @parse_text ascii_digits
       ((u "RegExp" ++ NEWLINE :: u "✅ Promise") ++ NEWLINE :: u "3/4 Symbol")
     = @parse_text ascii_digits (u "RegExp" ++ NEWLINE :: u "✅ Promise")
       ++ @parse_text ascii_digits (u "3/4 Symbol").
Proof.
  assert (Hcr : Forall (fun c => c <> RETURN) (u "RegExp" ++ NEWLINE :: u "✅ Promise"))
    by (vm_compute; repeat (constructor; [discriminate|]); constructor).
  split; [exact Hcr|].
  exact (@X14_documents_concatenate ascii_digits _ _ Hcr).
Defined.
Module Examples.
Import Sim Fixtures.

Example ex_u : u "✅ a/b" = [9989; 32; 97; 47; 98].
Proof. reflexivity. Qed.

Example ex_str : str_Z 1205 = u "1205" /\ str_Z 0 = u "0" /\ str_Z (-37) = u "-37".
Proof. vm_compute. auto. Qed.

Example ex_int :
  @py_int ascii_digits (u " +1_000 ") = Some 1000%Z
  /\ @py_int ascii_digits (u "-12") = Some (-12)%Z
  /\ @py_int ascii_digits (u "1__0") = None
  /\ @py_int ascii_digits (u "abc") = None
  /\ @py_int ascii_digits (u "") = None.
Proof. vm_compute. auto. Qed.

(** The three groups of a document, in its order. *)
Example ex_parse :
  @parse_text ascii_digits doc = [u "Array.prototype.map"; u "RegExp"; u "Promise"].
Proof. vm_compute. reflexivity. Qed.

(** A group that passed, one with failures, and one without result
    file. *)
Example ex_main :
  let '(r, w) := @main _ sys0 ascii_digits (@default_args _ sys0) (start fs0) in
  r = Ok 0%Z /\
  stdout w = [u "✅ Array.prototype.map"; u "8/10 RegExp"; u "0/0 Promise"] /\
  stderr w = [u "[1/3] Running Array.prototype.map...";
              u "[2/3] Running RegExp..."; u "[3/3] Running Promise..."].
Proof. vm_compute. auto. Qed.

(** A document of comments and blank lines: status 1, nothing on
    standard output. *)
Example ex_no_groups :
  let fs : files :=
    {[ u "/repo/262tests.md" := File (map (fun c => if c =? 124 then NEWLINE else c)
                                        (u "# Test262||  # nothing yet|")) None ]} in
  @main _ sys0 ascii_digits (@default_args _ sys0) (start fs)
  = (Ok 1%Z, World fs [] [u "No groups found to run."]).
Proof. vm_compute. reflexivity. Qed.

(** A name listed twice is run twice and reported twice. *)
Example ex_duplicates :
  let fs : files :=
    {[ u "/repo/262tests.md" := File (map (fun c => if c =? 124 then NEWLINE else c)
                                        (u "RegExp|RegExp|")) None ]} ∪ fs0 in
  (@main _ sys0 ascii_digits (@default_args _ sys0) (start fs)).1 = Ok 0%Z
  /\ stdout (@main _ sys0 ascii_digits (@default_args _ sys0) (start fs)).2
     = [u "8/10 RegExp"; u "8/10 RegExp"].
Proof. vm_compute. auto. Qed.

(** Line endings of all three kinds, and whitespace around a name. *)
Example ex_newlines :
  @parse_text ascii_digits
    (u "A" ++ [RETURN; NEWLINE] ++ u "  B  " ++ [RETURN] ++ u "3/4" ++ [9] ++ u "C"
       ++ [NEWLINE] ++ u "D E")
  = [u "A"; u "B"; u "C"].
Proof. vm_compute. reflexivity. Qed.
End Examples.

